(** * dante_tokenizer.evaluate: token-sequence alignment and scoring

    A shallow embedding of [src/dante_tokenizer/evaluate/evaluate.py]:
    the dynamic-programming table of [longest_common_token_sequence],
    the counts of [evaluate_sentence] and the loop of [evaluate_dataset].

    Python values are modelled as the code uses them: integers are [Z]
    (Python integers do not wrap), a table cell is [option Z] ([None] or
    an integer), floats are IEEE 754 binary64 values ([spec_float] with
    53 bits of precision), lists are [list] read and written by index,
    and every operation that can raise does so in the [exc] monad. *)

From Stdlib Require Import ZArith Lia Sorting.Sorted.
From Stdlib Require Import Floats.SpecFloat.
From stdpp Require Import base list strings.

Local Open Scope Z_scope.

(** ** Exceptions *)

Inductive PyError : Type :=
  | AssertionError
  | IndexError
  | TypeError
  | ZeroDivisionError.

Inductive exc (A : Type) : Type :=
  | Ok (a : A)
  | Raise (e : PyError).
Arguments Ok {A} a.
Arguments Raise {A} e.

#[global] Instance exc_ret : MRet exc := λ A a, Ok a.
#[global] Instance exc_bind : MBind exc := λ A B f m,
  match m with
  | Ok a => f a
  | Raise e => Raise e
  end.

Definition raises {A} (m : exc A) : Prop :=
  match m with
  | Ok _ => False
  | Raise _ => True
  end.

(** ** Python lists and loops *)

Module Py.

(** [len(l)] *)
Definition len {A} (l : list A) : Z := Z.of_nat (length l).

(** [l[i]] for an index that is not negative. *)
Definition getitem {A} (l : list A) (i : nat) : exc A :=
  match l !! i with
  | Some x => Ok x
  | None => Raise IndexError
  end.

(** [l[i] = x]: Python raises where stdpp's insert would do nothing. *)
Definition setitem {A} (l : list A) (i : nat) (x : A) : exc (list A) :=
  if decide (i < length l)%nat then Ok (<[i:=x]> l) else Raise IndexError.

(** [l[-1]] *)
Definition getlast {A} (l : list A) : exc A :=
  match last l with
  | Some x => Ok x
  | None => Raise IndexError
  end.

(** [for x in xs: body], threading the state the body updates. *)
Fixpoint for_each {A St} (xs : list A) (body : A → St → exc St) (s : St) : exc St :=
  match xs with
  | [] => Ok s
  | x :: xs' => s' ← body x s; for_each xs' body s'
  end.

(** [range(n)] *)
Definition range (n : nat) : list nat := seq 0 n.

(** [v + 1] on a table cell: [None + 1] is a [TypeError]. *)
Definition add1 (v : option Z) : exc (option Z) :=
  match v with
  | Some z => Ok (Some (z + 1))
  | None => Raise TypeError
  end.

(** [max(a, b)]: the first argument is kept unless the second is
    greater; comparing with [None] is a [TypeError]. *)
Definition max2 (a b : option Z) : exc (option Z) :=
  match a, b with
  | Some x, Some y => Ok (Some (if y >? x then y else x))
  | _, _ => Raise TypeError
  end.

(** A value used as an integer. *)
Definition as_int (v : option Z) : exc Z :=
  match v with
  | Some z => Ok z
  | None => Raise TypeError
  end.

End Py.

(** ** Floats

    Python floats are IEEE 754 binary64 values; the arithmetic below is
    the correctly rounded (to nearest, ties to even) arithmetic of
    [SpecFloat] at 53 bits of precision. *)

Module F64.

Definition prec : Z := 53.
Definition emax : Z := 1024.

Abbreviation float := spec_float.

(** An integer operand of a float operation is converted first. The
    conversion rounds to nearest; CPython raises [OverflowError] only
    from [2^1024] on, above every list length, and [binary_normalize]
    gives an infinity there. *)
Definition of_int (n : Z) : float := binary_normalize prec emax n 0 false.

Definition add : float → float → float := SFadd prec emax.
Definition sub : float → float → float := SFsub prec emax.
Definition mul : float → float → float := SFmul prec emax.
Definition div : float → float → float := SFdiv prec emax.
Definition sqrt : float → float := SFsqrt prec emax.

(** The literal [1e-9], that is [0x1.12e0be826d695p-30]. *)
Definition eps : float := S754_finite false 4835703278458517 (-82).

Definition zero : float := S754_zero false.

Definition is_zero (x : float) : bool :=
  match x with
  | S754_zero _ => true
  | _ => false
  end.

(** [x / y]: dividing by [0.0] or [-0.0] raises. *)
Definition truediv (x y : float) : exc float :=
  if is_zero y then Raise ZeroDivisionError else Ok (div x y).

End F64.

(** ** The table of [longest_common_token_sequence] *)

Abbreviation table := (list (list (option Z))).

Section LCTS.
Context {T : Type} `{EqDecision T}.

(** [[[None] * (n_right + 1) for i in range(n_left + 1)]]: the
    comprehension builds a fresh row per [i], so rows are not aliased. *)
Definition new_table (n_left n_right : nat) : table :=
  (λ _, replicate (n_right + 1) None) <$> Py.range (n_left + 1).

(** [L[i][j]] *)
Definition table_get (L : table) (i j : nat) : exc (option Z) :=
  row ← Py.getitem L i; Py.getitem row j.

(** [L[i][j] = v] *)
Definition table_set (L : table) (i j : nat) (v : option Z) : exc table :=
  row ← Py.getitem L i;
  row' ← Py.setitem row j v;
  Py.setitem L i row'.

(** The body of the inner loop. In the last two branches [i] and [j]
    are positive, so [i - 1] and [j - 1] are ordinary indices. *)
Definition fill_cell (left right : list T) (i j : nat) (L : table) : exc table :=
  if bool_decide (i = 0%nat) || bool_decide (j = 0%nat) then
    table_set L i j (Some 0)
  else
    a ← Py.getitem left (i - 1);
    b ← Py.getitem right (j - 1);
    if bool_decide (a = b) then
      d ← table_get L (i - 1) (j - 1);
      v ← Py.add1 d;
      table_set L i j v
    else
      u ← table_get L (i - 1) j;
      l ← table_get L i (j - 1);
      v ← Py.max2 u l;
      table_set L i j v.

Definition fill_row (left right : list T) (n_right : nat) (i : nat) (L : table) : exc table :=
  Py.for_each (Py.range (n_right + 1)) (fill_cell left right i) L.

Definition fill_table (left right : list T) (n_left n_right : nat) (L : table) : exc table :=
  Py.for_each (Py.range (n_left + 1)) (fill_row left right n_right) L.

(** The returned cell is used as an integer by every caller; a [None]
    there would raise at its first arithmetic use. *)
Definition longest_common_token_sequence (left right : list T) : exc Z :=
  let n_left := length left in
  let n_right := length right in
  let L := new_table n_left n_right in
  L ← fill_table left right n_left n_right L;
  v ← table_get L n_left n_right;
  Py.as_int v.

(** [evaluate_sentence] *)
Definition evaluate_sentence (pred_tokens true_tokens : list T) : exc (Z * Z * Z) :=
  true_positives ← longest_common_token_sequence pred_tokens true_tokens;
  let false_positives := Py.len pred_tokens - true_positives in
  let false_negatives := Py.len true_tokens - true_positives in
  Ok (true_positives, false_positives, false_negatives).

(** *** The recurrence as the specification writes it

    [L[i][0] = L[0][j] = 0]; for [i, j ≥ 1], [L[i][j] = L[i-1][j-1] + 1]
    when [left[i-1] == right[j-1]], and [max(L[i-1][j], L[i][j-1])]
    otherwise. *)
Fixpoint lcs_rec (left right : list T) (i : nat) : nat → Z :=
  match i with
  | O => λ _, 0
  | S i' =>
      fix row (j : nat) : Z :=
        match j with
        | O => 0
        | S j' =>
            if bool_decide (left !! i' = right !! j')
            then lcs_rec left right i' j' + 1
            else Z.max (lcs_rec left right i' j) (row j')
        end
  end.

(** *** Longest common subsequences *)

Definition common_subseq (s left right : list T) : Prop :=
  s `sublist_of` left ∧ s `sublist_of` right.

Definition lcs_length (left right : list T) (k : Z) : Prop :=
  (∃ s, common_subseq s left right ∧ Py.len s = k) ∧
  (∀ s, common_subseq s left right → Py.len s ≤ k).

End LCTS.

(** ** [evaluate_dataset] *)

(** The dictionary returned when [complete_metrics] is set; its four
    keys are fixed, so it is a record. *)
Record additional_metrics : Type := {
  true_positives : Z;
  false_positives : Z;
  false_negatives : Z;
  incorrect_sentences_ids : list nat;
}.

Abbreviation score := (F64.float * F64.float)%type.

(** The returned tuple has three components, or four with the
    dictionary. *)
Inductive result : Type :=
  | Scores (precision recall f_score : score)
  | ScoresAndMetrics (precision recall f_score : score) (metrics : additional_metrics).

Definition scores_of (r : result) : score * score * score :=
  match r with
  | Scores p r f => (p, r, f)
  | ScoresAndMetrics p r f _ => (p, r, f)
  end.

(** The variables the loop of [evaluate_dataset] updates. *)
Record loop_state : Type := {
  st_true_positives : Z;
  st_false_positives : Z;
  st_false_negatives : Z;
  st_incorrect_sentences_ids : list nat;
  st_precision_scores : list F64.float;
  st_recall_scores : list F64.float;
  st_f_scores : list F64.float;
}.

Definition initial_state : loop_state := {|
  st_true_positives := 0;
  st_false_positives := 0;
  st_false_negatives := 0;
  st_incorrect_sentences_ids := [];
  st_precision_scores := [];
  st_recall_scores := [];
  st_f_scores := [];
|}.

(** [assert b] *)
Definition py_assert (b : bool) : exc unit :=
  if b then Ok () else Raise AssertionError.

Section Dataset.
Context {T : Type} `{EqDecision T}.

(** [numpy.mean] and [numpy.std] on a list of floats: library
    functions, total on such lists (an empty list gives [nan] and a
    warning). *)
Variables np_mean np_std : list F64.float → F64.float.

(** The body of [for i in range(n_sents)]. *)
Definition dataset_step (pred_tokens true_tokens : list (list T))
    (i : nat) (s : loop_state) : exc loop_state :=
  p ← Py.getitem pred_tokens i;
  t ← Py.getitem true_tokens i;
  '(tp, fp, fn) ← evaluate_sentence p t;
  let true_positives := st_true_positives s + tp in
  let false_positives := st_false_positives s + fp in
  let false_negatives := st_false_negatives s + fn in
  x ← F64.truediv (F64.of_int tp) (F64.add (F64.of_int (tp + fp)) F64.eps);
  let precision_scores := st_precision_scores s ++ [x] in
  y ← F64.truediv (F64.of_int tp) (F64.add (F64.of_int (tp + fn)) F64.eps);
  let recall_scores := st_recall_scores s ++ [y] in
  p1 ← Py.getlast precision_scores;
  r1 ← Py.getlast recall_scores;
  p2 ← Py.getlast precision_scores;
  r2 ← Py.getlast recall_scores;
  z ← F64.truediv (F64.mul (F64.mul (F64.of_int 2) p1) r1)
                  (F64.add (F64.add p2 r2) F64.eps);
  let f_scores := st_f_scores s ++ [z] in
  let incorrect_sentences_ids :=
    if (fp >? 0) || (fn >? 0)
    then st_incorrect_sentences_ids s ++ [i]
    else st_incorrect_sentences_ids s in
  Ok {| st_true_positives := true_positives;
        st_false_positives := false_positives;
        st_false_negatives := false_negatives;
        st_incorrect_sentences_ids := incorrect_sentences_ids;
        st_precision_scores := precision_scores;
        st_recall_scores := recall_scores;
        st_f_scores := f_scores |}.

(** The function up to the end of its loop. *)
Definition dataset_loop (pred_tokens true_tokens : list (list T)) : exc loop_state :=
  _ ← py_assert (bool_decide (Py.len pred_tokens = Py.len true_tokens));
  let n_sents := length pred_tokens in
  Py.for_each (Py.range n_sents) (dataset_step pred_tokens true_tokens) initial_state.

(** The statements after the loop. *)
Definition dataset_result (s : loop_state) (complete_metrics : bool) : result :=
  let precision := (np_mean (st_precision_scores s), np_std (st_precision_scores s)) in
  let recall := (np_mean (st_recall_scores s), np_std (st_recall_scores s)) in
  let f_score := (np_mean (st_f_scores s), np_std (st_f_scores s)) in
  if complete_metrics then
    ScoresAndMetrics precision recall f_score
      {| true_positives := st_true_positives s;
         false_positives := st_false_positives s;
         false_negatives := st_false_negatives s;
         incorrect_sentences_ids := st_incorrect_sentences_ids s |}
  else
    Scores precision recall f_score.

Definition evaluate_dataset (pred_tokens true_tokens : list (list T))
    (complete_metrics : bool) : exc result :=
  s ← dataset_loop pred_tokens true_tokens;
  Ok (dataset_result s complete_metrics).

(** *** The per-sentence scores as the specification writes them *)

Definition precision_i (c : Z * Z * Z) : F64.float :=
  let '(tp, fp, fn) := c in
  F64.div (F64.of_int tp) (F64.add (F64.of_int (tp + fp)) F64.eps).

Definition recall_i (c : Z * Z * Z) : F64.float :=
  let '(tp, fp, fn) := c in
  F64.div (F64.of_int tp) (F64.add (F64.of_int (tp + fn)) F64.eps).

Definition f_i (c : Z * Z * Z) : F64.float :=
  let p := precision_i c in
  let r := recall_i c in
  F64.div (F64.mul (F64.mul (F64.of_int 2) p) r) (F64.add (F64.add p r) F64.eps).

Definition mean_std (xs : list F64.float) : score := (np_mean xs, np_std xs).

Definition incorrect (c : Z * Z * Z) : Prop :=
  let '(tp, fp, fn) := c in 0 < fp ∨ 0 < fn.

(** The counts of every sentence pair, in order. *)
Definition sentence_counts (pred_tokens true_tokens : list (list T))
    (cs : list (Z * Z * Z)) : Prop :=
  Forall2 (λ pt c, evaluate_sentence pt.1 pt.2 = Ok c) (zip pred_tokens true_tokens) cs.

End Dataset.

(** A sequential reading of the mean and of the (population) standard
    deviation, to run the functions on examples. *)
Module Stats.

Definition sum (xs : list F64.float) : F64.float := foldl F64.add F64.zero xs.

Definition mean (xs : list F64.float) : F64.float :=
  F64.div (sum xs) (F64.of_int (Py.len xs)).

Definition std (xs : list F64.float) : F64.float :=
  let m := mean xs in
  F64.sqrt (mean ((λ x, let d := F64.sub x m in F64.mul d d) <$> xs)).

End Stats.

(** ** Definitions used to state invariants and results *)

(** A cell read without the exceptions. *)
Definition cell (L : table) (i j : nat) : option (option Z) :=
  row ← L !! i; row !! j.

Definition table_dims (L : table) (rows cols : nat) : Prop :=
  length L = rows ∧ ∀ i row, L !! i = Some row → length row = cols.

Section Invariants.
Context {T : Type} `{EqDecision T}.
Implicit Types left right : list T.

(** Every cell before [(i, j)] in the order of the two loops holds
    its value of the recurrence. *)
Definition filled left right (L : table) (i j : nat) : Prop :=
  ∀ r c, (r ≤ length left)%nat → (c ≤ length right)%nat →
    (r < i ∨ r = i ∧ c < j)%nat →
    cell L r c = Some (Some (lcs_rec left right r c)).

Definition table_inv left right (i j : nat) (L : table) : Prop :=
  table_dims L (length left + 1) (length right + 1) ∧ filled left right L i j.

(** The counts [evaluate_sentence] returns, without the exceptions. *)
Definition counts_of (pred_tokens true_tokens : list T) : Z * Z * Z :=
  let tp := lcs_rec pred_tokens true_tokens (length pred_tokens) (length true_tokens) in
  (tp, Py.len pred_tokens - tp, Py.len true_tokens - tp).

Definition dataset_counts (pred_tokens true_tokens : list (list T)) : list (Z * Z * Z) :=
  zip_with counts_of pred_tokens true_tokens.

End Invariants.

Definition tp_of (c : Z * Z * Z) : Z := c.1.1.
Definition fp_of (c : Z * Z * Z) : Z := c.1.2.
Definition fn_of (c : Z * Z * Z) : Z := c.2.

(** Counts as the sentences give them: none is negative. *)
Definition counts_ok (c : Z * Z * Z) : Prop :=
  0 ≤ tp_of c ∧ 0 ≤ fp_of c ∧ 0 ≤ fn_of c.

Definition sumZ (l : list Z) : Z := foldr Z.add 0 l.

Definition incorrectb (c : Z * Z * Z) : bool := (fp_of c >? 0) || (fn_of c >? 0).

(** The indices, counted from [k], of the counts with [fp > 0 or fn > 0]. *)
Fixpoint incorrect_from (k : nat) (cs : list (Z * Z * Z)) : list nat :=
  match cs with
  | [] => []
  | c :: cs' => (if incorrectb c then [k] else []) ++ incorrect_from (S k) cs'
  end.

(** One turn of the loop on sentence [i] with counts [c]. *)
Definition step_state (s : loop_state) (i : nat) (c : Z * Z * Z) : loop_state := {|
  st_true_positives := st_true_positives s + tp_of c;
  st_false_positives := st_false_positives s + fp_of c;
  st_false_negatives := st_false_negatives s + fn_of c;
  st_incorrect_sentences_ids :=
    st_incorrect_sentences_ids s ++ (if incorrectb c then [i] else []);
  st_precision_scores := st_precision_scores s ++ [precision_i c];
  st_recall_scores := st_recall_scores s ++ [recall_i c];
  st_f_scores := st_f_scores s ++ [f_i c];
|}.

(** The state of the loop after the sentences with counts [cs]. *)
Definition state_after (cs : list (Z * Z * Z)) : loop_state := {|
  st_true_positives := sumZ (tp_of <$> cs);
  st_false_positives := sumZ (fp_of <$> cs);
  st_false_negatives := sumZ (fn_of <$> cs);
  st_incorrect_sentences_ids := incorrect_from 0 cs;
  st_precision_scores := precision_i <$> cs;
  st_recall_scores := recall_i <$> cs;
  st_f_scores := f_i <$> cs;
|}.

(** The signs of the floats the loop computes: zero, positive, or not a
    number. The least exponent of a binary64 value is [-1074]. *)
Module F64Class.
Import F64.

Definition nonneg (x : float) : Prop :=
  match x with
  | S754_zero false | S754_infinity false => True
  | S754_finite false _ e => -1074 ≤ e
  | _ => False
  end.

Definition positive (x : float) : Prop :=
  match x with
  | S754_infinity false => True
  | S754_finite false _ e => -1074 ≤ e
  | _ => False
  end.

Definition nan_or_nonneg (x : float) : Prop := x = S754_nan ∨ nonneg x.

End F64Class.

(** The number of tokens of a list of sentences. *)
Definition total_tokens {T} (sentences : list (list T)) : Z :=
  sumZ (Py.len <$> sentences).

(** A small dataset to run the functions on: the second and third
    pairs have an empty side. *)
Definition sample_pred : list (list string) := [["a"; "b"]; []; ["c"]]%string.
Definition sample_true : list (list string) := [["a"]; ["x"]; []]%string.

(** * Properties *)

Example sentence_doctest :
  evaluate_sentence ["Oi"; ":)"]%string ["Oi"; ":)"]%string = Ok (2, 0, 0).
Proof. vm_compute. reflexivity. Qed.

Example sentence_abc :
  evaluate_sentence ["a"; "b"; "c"]%string ["a"; "c"]%string = Ok (2, 1, 0).
Proof. vm_compute. reflexivity. Qed.

Example lcts_interleaved :
  longest_common_token_sequence
    ["a"; "b"; "c"; "b"; "d"; "a"; "b"]%string ["b"; "d"; "c"; "a"; "b"; "a"]%string = Ok 4.
Proof. vm_compute. reflexivity. Qed.

(** The literal [1e-9] is the binary64 value nearest to [1 / 10^9]. *)
Example eps_is_1e_9 : F64.div (F64.of_int 1) (F64.of_int (10 ^ 9)) = F64.eps.
Proof. vm_compute. reflexivity. Qed.


(** ** The [exc] monad and loops *)

(** Runs the binds whose first computation has returned. *)
Ltac exc_run := cbn [mbind exc_bind mret exc_ret].

Lemma range_snoc (n : nat) : Py.range (S n) = Py.range n ++ [n].
Proof. unfold Py.range. rewrite seq_S. reflexivity. Qed.

Lemma for_each_snoc {A St} (xs : list A) (x : A) (body : A → St → exc St) (s : St) :
  Py.for_each (xs ++ [x]) body s = (s' ← Py.for_each xs body s; body x s').
Proof.
  revert s. induction xs as [|y ys IH]; intros s; simpl.
  - destruct (body x s); reflexivity.
  - destruct (body y s) as [s'|e]; simpl; [apply IH | reflexivity].
Qed.

(** A loop over [range(n)] that keeps an invariant runs to its end. *)
Lemma for_range_inv {St} (I : nat → St → Prop) (body : nat → St → exc St) (n : nat) (s : St) :
  I 0%nat s →
  (∀ i s, (i < n)%nat → I i s → ∃ s', body i s = Ok s' ∧ I (S i) s') →
  ∃ s', Py.for_each (Py.range n) body s = Ok s' ∧ I n s'.
Proof.
  intros H0 Hstep. induction n as [|n IH].
  - exists s. split; [reflexivity | assumption].
  - destruct IH as (s1 & Hrun & HI).
    { intros i s0 Hi. apply Hstep. lia. }
    destruct (Hstep n s1) as (s2 & Hbody & HI2); [lia | assumption |].
    exists s2. split; [| assumption].
    rewrite range_snoc, for_each_snoc, Hrun. exact Hbody.
Qed.

Lemma getitem_ok {A} (l : list A) (i : nat) (x : A) :
  l !! i = Some x → Py.getitem l i = Ok x.
Proof. unfold Py.getitem. intros ->. reflexivity. Qed.

Lemma setitem_ok {A} (l : list A) (i : nat) (x : A) :
  (i < length l)%nat → Py.setitem l i x = Ok (<[i:=x]> l).
Proof. unfold Py.setitem. intros Hi. rewrite decide_True by assumption. reflexivity. Qed.

Lemma getlast_snoc {A} (l : list A) (x : A) : Py.getlast (l ++ [x]) = Ok x.
Proof. unfold Py.getlast. rewrite last_snoc. reflexivity. Qed.

Lemma max2_ok (x y : Z) : Py.max2 (Some x) (Some y) = Ok (Some (Z.max x y)).
Proof. simpl. do 2 f_equal. destruct (Z.gtb_spec y x); lia. Qed.

(** ** The table *)

Lemma table_get_ok (L : table) (i j : nat) (v : option Z) :
  cell L i j = Some v → table_get L i j = Ok v.
Proof.
  unfold cell, table_get. destruct (L !! i) as [row|] eqn:Hrow; [| discriminate].
  simpl. intros Hv. rewrite (getitem_ok _ _ _ Hrow). simpl.
  apply getitem_ok, Hv.
Qed.

Lemma table_set_ok (L : table) (rows cols i j : nat) (v : option Z) :
  table_dims L rows cols → (i < rows)%nat → (j < cols)%nat →
  ∃ L', table_set L i j v = Ok L' ∧ table_dims L' rows cols ∧
        cell L' i j = Some v ∧
        ∀ r c, (r, c) ≠ (i, j) → cell L' r c = cell L r c.
Proof.
  intros [Hlen Hrows] Hi Hj.
  destruct (lookup_lt_is_Some_2 L i) as [row Hrow]; [lia |].
  pose proof (Hrows _ _ Hrow) as Hrl.
  exists (<[i := <[j := v]> row]> L). repeat split.
  - unfold table_set. rewrite (getitem_ok _ _ _ Hrow). simpl.
    rewrite setitem_ok by lia. simpl. apply setitem_ok. lia.
  - rewrite length_insert. exact Hlen.
  - intros r row'. destruct (decide (r = i)) as [->|Hne].
    + rewrite list_lookup_insert_eq by lia. intros [= <-].
      rewrite length_insert. exact Hrl.
    + rewrite list_lookup_insert_ne by congruence. apply Hrows.
  - unfold cell. rewrite list_lookup_insert_eq by lia. simpl.
    apply list_lookup_insert_eq. lia.
  - intros r c Hne. unfold cell. destruct (decide (r = i)) as [->|Hr].
    + rewrite list_lookup_insert_eq by lia. rewrite Hrow. simpl.
      apply list_lookup_insert_ne. congruence.
    + rewrite list_lookup_insert_ne by congruence. reflexivity.
Qed.

Lemma new_table_dims (n_left n_right : nat) :
  table_dims (new_table n_left n_right) (n_left + 1) (n_right + 1).
Proof.
  unfold new_table, Py.range. split.
  - rewrite length_fmap, length_seq. reflexivity.
  - intros i row. rewrite list_lookup_fmap.
    destruct (seq 0 (n_left + 1) !! i); simpl; [| discriminate].
    intros [= <-]. apply length_replicate.
Qed.

(** ** The filled table holds the recurrence *)

Section TableFacts.
Context {T : Type} `{EqDecision T}.
Implicit Types left right s : list T.

Lemma lcs_rec_0_l left right j : lcs_rec left right 0 j = 0.
Proof. reflexivity. Qed.

Lemma lcs_rec_0_r left right i : lcs_rec left right i 0 = 0.
Proof. destruct i; reflexivity. Qed.

Lemma lcs_rec_S left right i j :
  lcs_rec left right (S i) (S j) =
    if bool_decide (left !! i = right !! j)
    then lcs_rec left right i j + 1
    else Z.max (lcs_rec left right i (S j)) (lcs_rec left right (S i) j).
Proof. reflexivity. Qed.

Lemma fill_cell_inv left right i j L :
  (i ≤ length left)%nat → (j ≤ length right)%nat →
  table_inv left right i j L →
  ∃ L', fill_cell left right i j L = Ok L' ∧ table_inv left right i (S j) L'.
Proof.
  intros Hi Hj [Hdims Hfill].
  assert (Hdone : ∀ v, v = lcs_rec left right i j →
    ∃ L', table_set L i j (Some v) = Ok L' ∧ table_inv left right i (S j) L').
  { intros v ->.
    destruct (table_set_ok L _ _ i j (Some (lcs_rec left right i j)) Hdims)
      as (L' & Hset & Hdims' & Hnew & Hold); [lia | lia |].
    exists L'. repeat split; try assumption; try apply Hdims'.
    intros r c Hr Hc Hlt.
    destruct (decide ((r, c) = (i, j))) as [[= -> ->]|Hne]; [exact Hnew |].
    rewrite Hold by exact Hne. apply Hfill; [lia | lia |].
    destruct Hlt as [?|[-> ?]]; [left; lia | right; split; [reflexivity |]].
    assert (c ≠ j) by congruence. lia. }
  unfold fill_cell.
  destruct i as [|i']; [apply Hdone; reflexivity |].
  destruct j as [|j']; [apply Hdone; reflexivity |].
  rewrite !bool_decide_eq_false_2 by lia. simpl orb. cbv iota.
  replace (S i' - 1)%nat with i' by lia. replace (S j' - 1)%nat with j' by lia.
  destruct (lookup_lt_is_Some_2 left i') as [a Ha]; [lia |].
  destruct (lookup_lt_is_Some_2 right j') as [b Hb]; [lia |].
  rewrite (getitem_ok _ _ _ Ha), (getitem_ok _ _ _ Hb). simpl.
  rewrite lcs_rec_S in Hdone. rewrite Ha, Hb in Hdone.
  destruct (decide (a = b)) as [Hab|Hab].
  - rewrite bool_decide_eq_true_2 by exact Hab.
    rewrite bool_decide_eq_true_2 in Hdone by congruence.
    rewrite (table_get_ok L i' j' (Some (lcs_rec left right i' j')))
      by (apply Hfill; lia).
    simpl. apply Hdone. reflexivity.
  - rewrite bool_decide_eq_false_2 by exact Hab.
    rewrite bool_decide_eq_false_2 in Hdone by congruence.
    rewrite (table_get_ok L i' (S j') (Some (lcs_rec left right i' (S j'))))
      by (apply Hfill; lia).
    exc_run.
    rewrite (table_get_ok L (S i') j' (Some (lcs_rec left right (S i') j')))
      by (apply Hfill; lia).
    exc_run. rewrite max2_ok. apply Hdone. reflexivity.
Qed.

Lemma fill_row_inv left right i L :
  (i ≤ length left)%nat →
  table_inv left right i 0 L →
  ∃ L', fill_row left right (length right) i L = Ok L' ∧
        table_inv left right (S i) 0 L'.
Proof.
  intros Hi Hinv. unfold fill_row.
  destruct (for_range_inv (table_inv left right i) (fill_cell left right i)
              (length right + 1) L Hinv) as (L' & Hrun & [Hdims Hfill]).
  { intros j L0 Hj. apply fill_cell_inv; [exact Hi | lia]. }
  exists L'. repeat split; try assumption; try apply Hdims.
  intros r c Hr Hc Hlt. apply Hfill; [lia | lia |].
  destruct (decide (r = i)) as [->|?]; [right | left]; lia.
Qed.

Lemma fill_table_inv left right :
  ∃ L', fill_table left right (length left) (length right)
          (new_table (length left) (length right)) = Ok L' ∧
        table_inv left right (length left + 1) 0 L'.
Proof.
  unfold fill_table.
  apply (for_range_inv (λ i, table_inv left right i 0)).
  - split; [apply new_table_dims |]. intros r c _ _ Hlt. lia.
  - intros i L Hi. apply fill_row_inv. lia.
Qed.

(** The function returns the last cell of the recurrence, and never
    raises. *)
Lemma lcts_is_lcs_rec left right :
  longest_common_token_sequence left right =
    Ok (lcs_rec left right (length left) (length right)).
Proof.
  unfold longest_common_token_sequence.
  destruct (fill_table_inv left right) as (L' & -> & _ & Hfill). simpl.
  rewrite (table_get_ok L' _ _ (Some (lcs_rec left right (length left) (length right)))).
  - reflexivity.
  - apply Hfill; lia.
Qed.

End TableFacts.

(** ** The recurrence computes the longest common subsequence *)

Section LCSFacts.
Context {T : Type} `{EqDecision T}.
Implicit Types left right s : list T.

Lemma len_app s1 s2 : Py.len (s1 ++ s2) = Py.len s1 + Py.len s2.
Proof. unfold Py.len. rewrite length_app. lia. Qed.

Lemma sublist_snoc_inv s l (x : T) :
  s `sublist_of` l ++ [x] →
  s `sublist_of` l ∨ ∃ s', s = s' ++ [x] ∧ s' `sublist_of` l.
Proof.
  intros (s1 & s2 & -> & H1 & H2)%sublist_app_r.
  apply sublist_cons_r in H2 as [H2|(s3 & -> & H2)];
    apply sublist_nil_r in H2 as ->.
  - left. rewrite app_nil_r. exact H1.
  - right. exists s1. split; [reflexivity | exact H1].
Qed.

Lemma lcs_length_unique left right k1 k2 :
  lcs_length left right k1 → lcs_length left right k2 → k1 = k2.
Proof.
  intros [(s1 & Hs1 & <-) Hmax1] [(s2 & Hs2 & <-) Hmax2].
  pose proof (Hmax1 _ Hs2). pose proof (Hmax2 _ Hs1). lia.
Qed.

Lemma lcs_length_sym left right k :
  lcs_length left right k → lcs_length right left k.
Proof.
  intros [(s & [Hl Hr] & Hk) Hmax]. split.
  - exists s. repeat split; assumption.
  - intros s' [Hr' Hl']. apply Hmax. split; assumption.
Qed.

Lemma lcs_length_nil_l right : lcs_length [] right 0.
Proof.
  split.
  - exists []. repeat split; [constructor | apply sublist_nil_l].
  - intros s [->%sublist_nil_r _]. reflexivity.
Qed.

Lemma lcs_length_nil_r left : lcs_length left [] 0.
Proof. apply lcs_length_sym, lcs_length_nil_l. Qed.

(** Both sequences end in the same token: it extends a longest common
    subsequence of what comes before. *)
Lemma lcs_length_snoc_eq left right (x : T) k :
  lcs_length left right k → lcs_length (left ++ [x]) (right ++ [x]) (k + 1).
Proof.
  intros [(s & [Hl Hr] & Hk) Hmax]. split.
  - exists (s ++ [x]). repeat split.
    + apply sublist_app; [exact Hl | reflexivity].
    + apply sublist_app; [exact Hr | reflexivity].
    + rewrite len_app, Hk. reflexivity.
  - intros s' [Hl' Hr'].
    apply sublist_snoc_inv in Hl' as [Hl'|(s1 & -> & Hl')].
    + apply sublist_snoc_inv in Hr' as [Hr'|(s2 & -> & Hr')].
      * pose proof (Hmax s' (conj Hl' Hr')). lia.
      * assert (Hs2 : s2 `sublist_of` left).
        { etrans; [| exact Hl']. apply sublist_inserts_r. reflexivity. }
        pose proof (Hmax s2 (conj Hs2 Hr')). rewrite len_app.
        unfold Py.len in *. simpl. lia.
    + apply sublist_app_inv_r in Hr'.
      pose proof (Hmax s1 (conj Hl' Hr')). rewrite len_app.
      unfold Py.len in *. simpl. lia.
Qed.

(** The last tokens differ: one of them is not used. *)
Lemma lcs_length_snoc_ne left right (x y : T) k1 k2 :
  x ≠ y →
  lcs_length left (right ++ [y]) k1 →
  lcs_length (left ++ [x]) right k2 →
  lcs_length (left ++ [x]) (right ++ [y]) (Z.max k1 k2).
Proof.
  intros Hxy [(s1 & [Hl1 Hr1] & Hk1) Hmax1] [(s2 & [Hl2 Hr2] & Hk2) Hmax2]. split.
  - destruct (Z.max_spec k1 k2) as [[_ ->]|[_ ->]].
    + exists s2. repeat split; [exact Hl2 | | exact Hk2].
      apply sublist_inserts_r, Hr2.
    + exists s1. repeat split; [| exact Hr1 | exact Hk1].
      apply sublist_inserts_r, Hl1.
  - intros s [Hl Hr].
    apply sublist_snoc_inv in Hl as [Hl|(s' & -> & Hl)].
    + pose proof (Hmax1 s (conj Hl Hr)). lia.
    + apply sublist_snoc_inv in Hr as [Hr|(s'' & Heq & Hr)].
      * assert (Hl' : s' ++ [x] `sublist_of` left ++ [x]).
        { apply sublist_app; [exact Hl | reflexivity]. }
        pose proof (Hmax2 _ (conj Hl' Hr)). lia.
      * apply app_inj_tail in Heq as [_ ?]. contradiction.
Qed.

(** Cell [(i, j)] of the recurrence is the length of a longest common
    subsequence of the first [i] tokens of [left] and the first [j]
    tokens of [right]. *)
Lemma lcs_rec_prefixes left right i j :
  (i ≤ length left)%nat → (j ≤ length right)%nat →
  lcs_length (take i left) (take j right) (lcs_rec left right i j).
Proof.
  revert j. induction i as [|i IHi]; intros j Hi Hj.
  - rewrite take_0. apply lcs_length_nil_l.
  - induction j as [|j IHj].
    + rewrite take_0, lcs_rec_0_r. apply lcs_length_nil_r.
    + destruct (lookup_lt_is_Some_2 left i) as [x Hx]; [lia |].
      destruct (lookup_lt_is_Some_2 right j) as [y Hy]; [lia |].
      rewrite lcs_rec_S, Hx, Hy.
      rewrite (take_S_r _ _ _ Hx), (take_S_r _ _ _ Hy).
      destruct (decide (x = y)) as [->|Hxy].
      * rewrite bool_decide_eq_true_2 by reflexivity.
        apply lcs_length_snoc_eq, IHi; lia.
      * rewrite bool_decide_eq_false_2 by congruence.
        apply lcs_length_snoc_ne; [exact Hxy | |].
        -- rewrite <- (take_S_r _ _ _ Hy). apply IHi; lia.
        -- rewrite <- (take_S_r _ _ _ Hx). apply IHj. lia.
Qed.

Lemma lcs_rec_lcs_length left right :
  lcs_length left right (lcs_rec left right (length left) (length right)).
Proof.
  pose proof (lcs_rec_prefixes left right (length left) (length right)) as H0.
  rewrite !firstn_all in H0. apply H0; lia.
Qed.

Lemma lcs_length_bounds left right k :
  lcs_length left right k → 0 ≤ k ∧ k ≤ Py.len left ∧ k ≤ Py.len right.
Proof.
  intros [(s & [Hl Hr] & <-) _].
  apply sublist_length in Hl, Hr. unfold Py.len. lia.
Qed.

Lemma lcs_length_refl left : lcs_length left left (Py.len left).
Proof.
  split.
  - exists left. repeat split; reflexivity.
  - intros s [Hs _]. apply sublist_length in Hs. unfold Py.len. lia.
Qed.

End LCSFacts.

(** ** [longest_common_token_sequence] and [evaluate_sentence] *)

Section SentenceTheorems.
Context {T : Type} `{EqDecision T}.
Implicit Types left right pred_tokens true_tokens A B : list T.

Lemma evaluate_sentence_ok pred_tokens true_tokens :
  evaluate_sentence pred_tokens true_tokens =
    let tp := lcs_rec pred_tokens true_tokens (length pred_tokens) (length true_tokens) in
    Ok (tp, Py.len pred_tokens - tp, Py.len true_tokens - tp).
Proof. unfold evaluate_sentence. rewrite lcts_is_lcs_rec. reflexivity. Qed.

(** C1. For all token sequences [left] and [right],
    [longest_common_token_sequence left right] returns, without
    raising, cell [(n, m)] of the table given by the recurrence
    [L[i][0] = L[0][j] = 0], [L[i][j] = L[i-1][j-1] + 1] when
    [left[i-1] == right[j-1]] and [max(L[i-1][j], L[i][j-1])]
    otherwise; that value is the length of a longest common
    subsequence of [left] and [right] (a sublist of both, not
    necessarily contiguous, and no common sublist is longer); an empty
    input gives [0]. *)
Theorem lcts_computes_lcs left right :
  longest_common_token_sequence left right =
    Ok (lcs_rec left right (length left) (length right)) ∧
  lcs_length left right (lcs_rec left right (length left) (length right)) ∧
  (∀ i, lcs_rec left right i 0 = 0) ∧
  (∀ j, lcs_rec left right 0 j = 0) ∧
  (∀ i j x y, left !! i = Some x → right !! j = Some y →
     lcs_rec left right (S i) (S j) =
       if decide (x = y)
       then lcs_rec left right i j + 1
       else Z.max (lcs_rec left right i (S j)) (lcs_rec left right (S i) j)) ∧
  longest_common_token_sequence [] right = Ok 0 ∧
  longest_common_token_sequence left [] = Ok 0.
Proof.
  split; [apply lcts_is_lcs_rec |].
  split; [apply lcs_rec_lcs_length |].
  split; [apply lcs_rec_0_r |].
  split; [apply lcs_rec_0_l |].
  split.
  - intros i j x y Hx Hy. rewrite lcs_rec_S, Hx, Hy.
    destruct (decide (x = y)) as [->|Hne].
    + rewrite bool_decide_eq_true_2 by reflexivity. reflexivity.
    + rewrite bool_decide_eq_false_2 by congruence. reflexivity.
  - split; rewrite lcts_is_lcs_rec; [reflexivity |].
    simpl length. rewrite lcs_rec_0_r. reflexivity.
Qed.

(** C2. For all token sequences, [evaluate_sentence pred_tokens
    true_tokens] returns [(tp, fp, fn)] where [tp] is the result of
    [longest_common_token_sequence], [fp = len(pred_tokens) - tp] and
    [fn = len(true_tokens) - tp]; hence [tp + fp = len(pred_tokens)]
    and [tp + fn = len(true_tokens)]. *)
Theorem evaluate_sentence_counts pred_tokens true_tokens :
  ∃ tp fp fn,
    evaluate_sentence pred_tokens true_tokens = Ok (tp, fp, fn) ∧
    longest_common_token_sequence pred_tokens true_tokens = Ok tp ∧
    fp = Py.len pred_tokens - tp ∧
    fn = Py.len true_tokens - tp ∧
    tp + fp = Py.len pred_tokens ∧
    tp + fn = Py.len true_tokens.
Proof.
  eexists _, _, _. split; [apply evaluate_sentence_ok |].
  split; [apply lcts_is_lcs_rec |]. cbv zeta. lia.
Qed.

(** C6. For all token sequences, the triple [(tp, fp, fn)] returned by
    [evaluate_sentence] has [tp ≤ min(len(pred_tokens),
    len(true_tokens))], [fp ≥ 0] and [fn ≥ 0]. *)
Theorem evaluate_sentence_bounds pred_tokens true_tokens :
  ∃ tp fp fn,
    evaluate_sentence pred_tokens true_tokens = Ok (tp, fp, fn) ∧
    tp ≤ Z.min (Py.len pred_tokens) (Py.len true_tokens) ∧
    0 ≤ fp ∧ 0 ≤ fn.
Proof.
  eexists _, _, _. split; [apply evaluate_sentence_ok |]. cbv zeta.
  pose proof (lcs_length_bounds _ _ _ (lcs_rec_lcs_length pred_tokens true_tokens)).
  lia.
Qed.

(** C7. For all token sequences [A] and [B],
    [longest_common_token_sequence A B] equals
    [longest_common_token_sequence B A]. *)
Theorem lcts_symmetric A B :
  longest_common_token_sequence A B = longest_common_token_sequence B A.
Proof.
  rewrite !lcts_is_lcs_rec. f_equal.
  apply (lcs_length_unique A B); [apply lcs_rec_lcs_length |].
  apply lcs_length_sym, lcs_rec_lcs_length.
Qed.

(** C8. For every token sequence [A],
    [longest_common_token_sequence A A] is [len(A)] and
    [longest_common_token_sequence A []] is [0]. *)
Theorem lcts_self_and_empty A :
  longest_common_token_sequence A A = Ok (Py.len A) ∧
  longest_common_token_sequence A [] = Ok 0.
Proof.
  rewrite !lcts_is_lcs_rec. split; f_equal.
  - apply (lcs_length_unique A A); [apply lcs_rec_lcs_length | apply lcs_length_refl].
  - apply (lcs_length_unique A []); [apply lcs_rec_lcs_length | apply lcs_length_nil_r].
Qed.

End SentenceTheorems.

(** ** Floats: the scores are never negative

    Every rounding keeps the sign and, above the least exponent, does
    not round a positive value to zero; so a denominator [x + 1e-9]
    with [x] not negative is not zero. *)

Module F64Facts.
Import F64 F64Class.

Lemma fexp_eq e : fexp prec emax e = Z.max (e - 53) (-1074).
Proof. reflexivity. Qed.

Lemma digits2_pos_le m : 2 ^ (Zpos (digits2_pos m) - 1) ≤ Zpos m.
Proof.
  induction m as [m IH|m IH|]; simpl digits2_pos; [| |simpl; lia].
  all: rewrite Pos2Z.inj_succ;
    replace (Z.succ (Zpos (digits2_pos m)) - 1) with (Z.succ (Zpos (digits2_pos m) - 1)) by lia;
    rewrite Z.pow_succ_r by lia; lia.
Qed.

Lemma shr_1_m mrs : 0 ≤ shr_m mrs → shr_m (shr_1 mrs) = shr_m mrs / 2.
Proof.
  destruct mrs as [[|[p|p|]|p] r s]; cbn [shr_1 shr_m]; intros Hm; try lia; try reflexivity.
  - apply Z.div_unique with 1; lia.
  - apply Z.div_unique with 0; lia.
Qed.

Lemma iter_shr_1_m p mrs :
  0 ≤ shr_m mrs → shr_m (SpecFloat.iter_pos shr_1 p mrs) = shr_m mrs / 2 ^ Zpos p.
Proof.
  revert mrs. induction p as [p IH|p IH|]; intros mrs Hm; cbn [SpecFloat.iter_pos].
  - assert (H1 : 0 ≤ shr_m (shr_1 mrs)) by (rewrite shr_1_m by lia; apply Z.div_pos; lia).
    assert (H2 : 0 ≤ shr_m (SpecFloat.iter_pos shr_1 p (shr_1 mrs)))
      by (rewrite IH by lia; apply Z.div_pos; lia).
    rewrite IH, IH, shr_1_m by assumption.
    rewrite !Z.div_div by lia. f_equal.
    rewrite (Pos2Z.inj_xI p), Z.pow_add_r, Z.pow_mul_r by lia.
    change (2 ^ 2) with 4. change (2 ^ 1) with 2.
    replace (4 ^ Zpos p) with (2 ^ Zpos p * 2 ^ Zpos p); [lia |].
    rewrite <- Z.pow_mul_l. reflexivity.
  - assert (H2 : 0 ≤ shr_m (SpecFloat.iter_pos shr_1 p mrs))
      by (rewrite IH by lia; apply Z.div_pos; lia).
    rewrite IH, IH by assumption.
    rewrite !Z.div_div by lia. f_equal.
    rewrite (Pos2Z.inj_xO p), Z.pow_mul_r by lia.
    change (2 ^ 2) with 4.
    rewrite <- Z.pow_mul_l. reflexivity.
  - rewrite shr_1_m by assumption. reflexivity.
Qed.

Lemma shr_fexp_spec m e l :
  0 ≤ m →
  let '(mrs, e') := shr_fexp prec emax m e l in
  0 ≤ shr_m mrs ∧ -1074 ≤ e' ∧ (0 < m → -1074 ≤ e → 0 < shr_m mrs).
Proof.
  intros Hm. unfold shr_fexp, shr. rewrite fexp_eq.
  assert (Hrec : shr_m (shr_record_of_loc m l) = m) by (destruct l as [|[]]; reflexivity).
  destruct (Z.max (Zdigits2 m + e - 53) (-1074) - e) as [|p|p] eqn:Hn.
  - rewrite Hrec. repeat split; lia.
  - rewrite iter_shr_1_m by lia. rewrite Hrec. repeat split; [apply Z.div_pos; lia | lia |].
    intros Hpos He. apply Z.div_str_pos. split; [lia |].
    destruct m as [|q|q]; try lia. cbn [Zdigits2] in Hn.
    pose proof (digits2_pos_le q).
    assert (Zpos p ≤ Zpos (digits2_pos q) - 1) by lia.
    etrans; [| eassumption]. apply Z.pow_le_mono_r; lia.
  - rewrite Hrec. repeat split; lia.
Qed.

Lemma round_nearest_even_ge m l : m ≤ round_nearest_even m l.
Proof. destruct l as [|[]]; cbn [round_nearest_even]; try destruct (Z.even m); lia. Qed.

Lemma binary_round_aux_spec m e l :
  0 ≤ m →
  nonneg (binary_round_aux prec emax false m e l) ∧
  (0 < m → -1074 ≤ e → positive (binary_round_aux prec emax false m e l)).
Proof.
  intros Hm. unfold binary_round_aux.
  pose proof (shr_fexp_spec m e l Hm) as H1.
  destruct (shr_fexp prec emax m e l) as [mrs1 e1].
  destruct H1 as (Hm1 & He1 & Hp1).
  pose proof (round_nearest_even_ge (shr_m mrs1) (loc_of_shr_record mrs1)) as Hr.
  set (m2 := round_nearest_even (shr_m mrs1) (loc_of_shr_record mrs1)) in *.
  assert (Hm2 : 0 ≤ m2) by lia.
  pose proof (shr_fexp_spec m2 e1 loc_Exact Hm2) as H2.
  destruct (shr_fexp prec emax m2 e1 loc_Exact) as [mrs2 e2].
  destruct H2 as (Hm3 & He2 & Hp2).
  destruct (shr_m mrs2) as [|q|q] eqn:Hq.
  - split; [exact I |]. intros Hpos He. lia.
  - destruct (e2 <=? emax - prec); simpl; auto.
  - lia.
Qed.

Lemma binary_round_positive m e :
  -1074 ≤ e → positive (binary_round prec emax false m e).
Proof.
  intros He. unfold binary_round, shl_align. rewrite fexp_eq.
  destruct (Z.max (Z.pos (digits2_pos m) + e - 53) (-1074) - e) eqn:Hn;
    apply binary_round_aux_spec; lia.
Qed.

Lemma of_int_nonneg n : 0 ≤ n → nonneg (of_int n).
Proof.
  intros Hn. unfold of_int, binary_normalize. destruct n as [|p|p]; [exact I | | lia].
  pose proof (binary_round_positive p 0 ltac:(lia)) as Hp.
  destruct (binary_round prec emax false p 0) as [[]|[]| |[] ? ?]; simpl in *; tauto.
Qed.

Lemma positive_nonneg x : positive x → nonneg x.
Proof. destruct x as [[]|[]| |[] ? ?]; simpl; tauto. Qed.

Lemma positive_not_zero x : positive x → is_zero x = false.
Proof. destruct x as [[]|[]| |[] ? ?]; simpl; tauto. Qed.

Lemma add_positive x y : nonneg x → positive y → positive (add x y).
Proof.
  destruct x as [[]|[]| |[] mx ex], y as [[]|[]| |[] my ey]; simpl; try tauto.
  intros Hx Hy. apply binary_round_positive. lia.
Qed.

Lemma add_not_zero x y : nan_or_nonneg x → positive y → is_zero (add x y) = false.
Proof.
  intros [->|Hx] Hy; [reflexivity |].
  apply positive_not_zero, add_positive; assumption.
Qed.

Lemma add_sign x y : nan_or_nonneg x → nan_or_nonneg y → nan_or_nonneg (add x y).
Proof.
  intros [->|Hx] [->|Hy]; try (left; reflexivity).
  - left. destruct x as [[]|[]| |[] ? ?]; reflexivity.
  - destruct x as [[]|[]| |[] mx ex], y as [[]|[]| |[] my ey]; simpl in *;
      try tauto; try (right; exact I); try (right; assumption).
    right. apply positive_nonneg, binary_round_positive. lia.
Qed.

Lemma div_sign x y : nonneg x → positive y → nan_or_nonneg (div x y).
Proof.
  destruct x as [[]|[]| |[] mx ex], y as [[]|[]| |[] my ey]; simpl; try tauto;
    try (intros; right; exact I); try (intros; left; reflexivity).
  intros Hx Hy. right. unfold SFdiv_core_binary.
  set (m' := match _ - _ - _ with Z0 => _ | Zpos _ => _ | Zneg _ => _ end).
  assert (Hm' : 0 ≤ m').
  { subst m'. match goal with |- 0 ≤ match ?s with _ => _ end => destruct s end;
      [lia | apply Z.shiftl_nonneg; lia | lia]. }
  pose proof (Z.div_pos m' (Zpos my) Hm' ltac:(lia)) as Hq.
  unfold Z.div in Hq. destruct (Z.div_eucl m' (Zpos my)) as [q r]. simpl in Hq.
  apply binary_round_aux_spec. exact Hq.
Qed.

Lemma div_zero_positive y : positive y → div zero y = zero.
Proof. destruct y as [[]|[]| |[] ? ?]; simpl; tauto. Qed.

Lemma eps_positive : positive eps.
Proof. simpl. lia. Qed.
End F64Facts.

(** ** The loop of [evaluate_dataset] *)

Lemma sumZ_snoc (l : list Z) (x : Z) : sumZ (l ++ [x]) = sumZ l + x.
Proof. unfold sumZ. induction l as [|y l IH]; simpl; lia. Qed.

Lemma incorrect_from_snoc (k : nat) (cs : list (Z * Z * Z)) (c : Z * Z * Z) :
  incorrect_from k (cs ++ [c]) =
    incorrect_from k cs ++ (if incorrectb c then [(k + length cs)%nat] else []).
Proof.
  revert k. induction cs as [|c0 cs IH]; intros k; simpl.
  - rewrite Nat.add_0_r, app_nil_r. reflexivity.
  - rewrite IH, <- app_assoc. replace (S k + length cs)%nat with (k + S (length cs))%nat by lia.
    reflexivity.
Qed.

Lemma state_after_snoc (cs : list (Z * Z * Z)) (c : Z * Z * Z) :
  state_after (cs ++ [c]) = step_state (state_after cs) (length cs) c.
Proof.
  unfold state_after, step_state.
  rewrite !fmap_app. cbn [fmap list_fmap].
  rewrite !sumZ_snoc, incorrect_from_snoc. reflexivity.
Qed.

Lemma incorrectb_spec (c : Z * Z * Z) : incorrectb c = true ↔ incorrect c.
Proof.
  destruct c as [[tp fp] fn]. unfold incorrectb, incorrect, fp_of, fn_of. simpl.
  rewrite orb_true_iff. destruct (Z.gtb_spec fp 0), (Z.gtb_spec fn 0); intuition (try lia; congruence).
Qed.

Lemma elem_of_incorrect_from (k : nat) (cs : list (Z * Z * Z)) (i : nat) :
  i ∈ incorrect_from k cs ↔
  (k ≤ i)%nat ∧ ∃ c, cs !! (i - k)%nat = Some c ∧ incorrectb c = true.
Proof.
  revert k. induction cs as [|c0 cs IH]; intros k; simpl.
  - split; [intros []%elem_of_nil | intros (_ & c & [=] & _)].
  - rewrite elem_of_app, IH. split.
    + intros [Hi|(Hk & c & Hc & Hb)].
      * destruct (incorrectb c0) eqn:Hb; [| apply elem_of_nil in Hi as []].
        apply list_elem_of_singleton in Hi as ->. split; [lia |].
        exists c0. rewrite Nat.sub_diag. split; [reflexivity | exact Hb].
      * split; [lia |]. exists c. split; [| exact Hb].
        replace (i - k)%nat with (S (i - S k)) by lia. exact Hc.
    + intros (Hk & c & Hc & Hb). destruct (decide (i = k)) as [->|Hne].
      * left. rewrite Nat.sub_diag in Hc. injection Hc as ->. rewrite Hb.
        apply list_elem_of_singleton. reflexivity.
      * right. split; [lia |]. exists c. split; [| exact Hb].
        replace (i - k)%nat with (S (i - S k)) in Hc by lia. exact Hc.
Qed.

Lemma incorrect_from_sorted (k : nat) (cs : list (Z * Z * Z)) :
  StronglySorted lt (incorrect_from k cs).
Proof.
  revert k. induction cs as [|c0 cs IH]; intros k; simpl; [constructor |].
  destruct (incorrectb c0); simpl; [| apply IH].
  constructor; [apply IH |].
  apply Forall_forall. intros i [Hi _]%elem_of_incorrect_from. lia.
Qed.

(** ** The divisions of the loop do not raise *)

Module ScoreFacts.
Import F64 F64Class F64Facts.

Lemma denominator_positive (n : Z) : 0 ≤ n → positive (add (of_int n) eps).
Proof. intros Hn. apply add_positive; [apply of_int_nonneg, Hn | apply eps_positive]. Qed.

Lemma ratio_sign (tp n : Z) :
  0 ≤ tp → 0 ≤ n → nan_or_nonneg (div (of_int tp) (add (of_int n) eps)).
Proof.
  intros Htp Hn. apply div_sign; [apply of_int_nonneg, Htp | apply denominator_positive, Hn].
Qed.

Lemma ratio_ok (tp n : Z) :
  0 ≤ n →
  truediv (of_int tp) (add (of_int n) eps) = Ok (div (of_int tp) (add (of_int n) eps)).
Proof.
  intros Hn. unfold truediv.
  rewrite (positive_not_zero _ (denominator_positive n Hn)). reflexivity.
Qed.

Lemma precision_i_sign (c : Z * Z * Z) : counts_ok c → nan_or_nonneg (precision_i c).
Proof.
  destruct c as [[tp fp] fn]. unfold counts_ok, tp_of, fp_of, fn_of. simpl.
  intros (Htp & Hfp & Hfn). apply ratio_sign; lia.
Qed.

Lemma recall_i_sign (c : Z * Z * Z) : counts_ok c → nan_or_nonneg (recall_i c).
Proof.
  destruct c as [[tp fp] fn]. unfold counts_ok, tp_of, fp_of, fn_of. simpl.
  intros (Htp & Hfp & Hfn). apply ratio_sign; lia.
Qed.

Lemma f_ok (p r : float) :
  nan_or_nonneg p → nan_or_nonneg r →
  truediv (mul (mul (of_int 2) p) r) (add (add p r) eps) =
    Ok (div (mul (mul (of_int 2) p) r) (add (add p r) eps)).
Proof.
  intros Hp Hr. unfold truediv.
  rewrite add_not_zero; [reflexivity | | apply eps_positive].
  apply add_sign; assumption.
Qed.

(** A sentence pair with no true positive scores [0.0] three times. *)
Lemma scores_zero (fp fn : Z) :
  0 ≤ fp → 0 ≤ fn →
  precision_i (0, fp, fn) = zero ∧ recall_i (0, fp, fn) = zero ∧ f_i (0, fp, fn) = zero.
Proof.
  intros Hfp Hfn.
  assert (Hp : precision_i (0, fp, fn) = zero).
  { apply (div_zero_positive (add (of_int (0 + fp)) eps)), denominator_positive. lia. }
  assert (Hr : recall_i (0, fp, fn) = zero).
  { apply (div_zero_positive (add (of_int (0 + fn)) eps)), denominator_positive. lia. }
  repeat split; [exact Hp | exact Hr |].
  unfold f_i. rewrite Hp, Hr. reflexivity.
Qed.

End ScoreFacts.

Section DatasetFacts.
Context {T : Type} `{EqDecision T}.
Implicit Types pred_tokens true_tokens : list (list T).

Lemma counts_of_ok (p t : list T) : counts_ok (counts_of p t).
Proof.
  unfold counts_ok, counts_of, tp_of, fp_of, fn_of. simpl.
  pose proof (lcs_length_bounds _ _ _ (lcs_rec_lcs_length p t)). lia.
Qed.

Lemma counts_of_empty (p t : list T) :
  p = [] ∨ t = [] → counts_of p t = (0, Py.len p, Py.len t).
Proof.
  intros Hempty. unfold counts_of.
  assert (Hz : lcs_rec p t (length p) (length t) = 0).
  { apply (lcs_length_unique p t); [apply lcs_rec_lcs_length |].
    destruct Hempty as [-> | ->]; [apply lcs_length_nil_l | apply lcs_length_nil_r]. }
  rewrite Hz. cbv zeta. f_equal; [f_equal |]; lia.
Qed.

Lemma sentence_is_counts_of (p t : list T) :
  evaluate_sentence p t = Ok (counts_of p t).
Proof. apply evaluate_sentence_ok. Qed.

Lemma dataset_step_ok pred_tokens true_tokens i s (p t : list T) :
  pred_tokens !! i = Some p → true_tokens !! i = Some t →
  dataset_step pred_tokens true_tokens i s = Ok (step_state s i (counts_of p t)).
Proof.
  intros Hp Ht. unfold dataset_step.
  rewrite (getitem_ok _ _ _ Hp), (getitem_ok _ _ _ Ht). exc_run.
  rewrite sentence_is_counts_of. exc_run.
  pose proof (counts_of_ok p t) as Hok.
  pose proof (ScoreFacts.precision_i_sign _ Hok) as Hpu.
  pose proof (ScoreFacts.recall_i_sign _ Hok) as Hru.
  destruct (counts_of p t) as [[tp fp] fn].
  destruct Hok as (Htp & Hfp & Hfn). unfold tp_of, fp_of, fn_of in *. simpl in Htp, Hfp, Hfn.
  rewrite ScoreFacts.ratio_ok by lia. exc_run.
  rewrite ScoreFacts.ratio_ok by lia. exc_run.
  rewrite !getlast_snoc. exc_run.
  unfold precision_i in Hpu. unfold recall_i in Hru.
  rewrite (ScoreFacts.f_ok _ _ Hpu Hru). exc_run.
  unfold step_state, incorrectb, tp_of, fp_of, fn_of. cbn [fst snd].
  destruct ((fp >? 0) || (fn >? 0)); [| rewrite app_nil_r]; reflexivity.
Qed.

Lemma dataset_counts_length pred_tokens true_tokens :
  length pred_tokens = length true_tokens →
  length (dataset_counts pred_tokens true_tokens) = length pred_tokens.
Proof. intros Hlen. unfold dataset_counts. rewrite length_zip_with. lia. Qed.

Lemma dataset_counts_lookup pred_tokens true_tokens i :
  dataset_counts pred_tokens true_tokens !! i =
    p ← pred_tokens !! i; t ← true_tokens !! i; Some (counts_of p t).
Proof. unfold dataset_counts. apply lookup_zip_with. Qed.

Lemma dataset_counts_sentence_counts pred_tokens true_tokens :
  sentence_counts pred_tokens true_tokens (dataset_counts pred_tokens true_tokens).
Proof.
  unfold sentence_counts, dataset_counts. revert true_tokens.
  induction pred_tokens as [|p ps IH]; intros [|t ts]; simpl; try constructor.
  - apply sentence_is_counts_of.
  - apply IH.
Qed.

Lemma dataset_loop_mismatch pred_tokens true_tokens :
  length pred_tokens ≠ length true_tokens →
  dataset_loop pred_tokens true_tokens = Raise AssertionError.
Proof.
  intros Hne. unfold dataset_loop, Py.len.
  rewrite bool_decide_eq_false_2 by lia. reflexivity.
Qed.

Lemma dataset_loop_ok pred_tokens true_tokens :
  length pred_tokens = length true_tokens →
  dataset_loop pred_tokens true_tokens =
    Ok (state_after (dataset_counts pred_tokens true_tokens)).
Proof.
  intros Hlen. unfold dataset_loop, Py.len.
  rewrite bool_decide_eq_true_2 by lia. cbn [py_assert]; exc_run.
  set (cs := dataset_counts pred_tokens true_tokens).
  destruct (for_range_inv (λ i s, s = state_after (take i cs))
              (dataset_step pred_tokens true_tokens) (length pred_tokens) initial_state)
    as (s & Hrun & ->).
  - reflexivity.
  - intros i s Hi ->.
    destruct (lookup_lt_is_Some_2 pred_tokens i) as [p Hp]; [lia |].
    destruct (lookup_lt_is_Some_2 true_tokens i) as [t Ht]; [lia |].
    exists (step_state (state_after (take i cs)) i (counts_of p t)).
    split; [apply dataset_step_ok; assumption |].
    assert (Hc : cs !! i = Some (counts_of p t)).
    { subst cs. rewrite dataset_counts_lookup, Hp, Ht. reflexivity. }
    rewrite (take_S_r _ _ _ Hc), state_after_snoc. f_equal.
    rewrite length_take. subst cs. rewrite dataset_counts_length by assumption. lia.
  - rewrite Hrun. f_equal. f_equal. apply firstn_all2.
    subst cs. rewrite dataset_counts_length by assumption. lia.
Qed.

End DatasetFacts.

(** ** [evaluate_dataset] *)

Section DatasetTheorems.
Context {T : Type} `{EqDecision T}.
Variables np_mean np_std : list F64.float → F64.float.
Implicit Types pred_tokens true_tokens : list (list T).

Lemma evaluate_dataset_ok pred_tokens true_tokens complete_metrics :
  length pred_tokens = length true_tokens →
  evaluate_dataset np_mean np_std pred_tokens true_tokens complete_metrics =
    Ok (dataset_result np_mean np_std
          (state_after (dataset_counts pred_tokens true_tokens)) complete_metrics).
Proof.
  intros Hlen. unfold evaluate_dataset. rewrite dataset_loop_ok by exact Hlen. reflexivity.
Qed.

(** C3. [evaluate_dataset] raises exactly when the two lists of
    sentences have different lengths, and what it raises then is the
    assertion failure. On lists of equal length the loop and the
    function complete, also when token sequences are empty, and the
    precision, recall and f-score of a sentence pair with an empty side
    are [0.0]. *)
Theorem evaluate_dataset_raises pred_tokens true_tokens complete_metrics :
  (raises (evaluate_dataset np_mean np_std pred_tokens true_tokens complete_metrics) ↔
     length pred_tokens ≠ length true_tokens) ∧
  (length pred_tokens ≠ length true_tokens →
     evaluate_dataset np_mean np_std pred_tokens true_tokens complete_metrics =
       Raise AssertionError) ∧
  (length pred_tokens = length true_tokens →
     ∃ s, dataset_loop pred_tokens true_tokens = Ok s ∧
          evaluate_dataset np_mean np_std pred_tokens true_tokens complete_metrics =
            Ok (dataset_result np_mean np_std s complete_metrics) ∧
          ∀ i p t, pred_tokens !! i = Some p → true_tokens !! i = Some t →
            p = [] ∨ t = [] →
            st_precision_scores s !! i = Some F64.zero ∧
            st_recall_scores s !! i = Some F64.zero ∧
            st_f_scores s !! i = Some F64.zero).
Proof.
  assert (Hbad : length pred_tokens ≠ length true_tokens →
            evaluate_dataset np_mean np_std pred_tokens true_tokens complete_metrics =
              Raise AssertionError).
  { intros Hne. unfold evaluate_dataset. rewrite dataset_loop_mismatch by exact Hne.
    reflexivity. }
  split; [| split; [exact Hbad |]].
  - destruct (decide (length pred_tokens = length true_tokens)) as [Heq|Hne].
    + rewrite evaluate_dataset_ok by exact Heq. simpl. tauto.
    + rewrite Hbad by exact Hne. simpl. tauto.
  - intros Hlen. exists (state_after (dataset_counts pred_tokens true_tokens)).
    split; [apply dataset_loop_ok, Hlen |].
    split; [apply evaluate_dataset_ok, Hlen |].
    intros i p t Hp Ht Hempty. cbn [state_after st_precision_scores st_recall_scores st_f_scores].
    rewrite !list_lookup_fmap, dataset_counts_lookup, Hp, Ht. cbn [mbind option_bind fmap option_fmap option_map].
    rewrite (counts_of_empty p t Hempty).
    destruct (ScoreFacts.scores_zero (Py.len p) (Py.len t)) as (-> & -> & ->);
      unfold Py.len; try lia.
    repeat split; reflexivity.
Qed.

(** C4. On lists of equal length, with [(tp, fp, fn)] the counts
    [evaluate_sentence] returns for each sentence pair, the per-sentence
    scores are [tp / (tp + fp + 1e-9)], [tp / (tp + fn + 1e-9)] and
    [2 * p * r / (p + r + 1e-9)], and [evaluate_dataset] returns for each
    of the three the pair of the mean and the standard deviation of the
    scores of all sentences. *)
Theorem evaluate_dataset_scores pred_tokens true_tokens complete_metrics :
  length pred_tokens = length true_tokens →
  ∃ cs res,
    sentence_counts pred_tokens true_tokens cs ∧
    evaluate_dataset np_mean np_std pred_tokens true_tokens complete_metrics = Ok res ∧
    scores_of res =
      (mean_std np_mean np_std (precision_i <$> cs),
       mean_std np_mean np_std (recall_i <$> cs),
       mean_std np_mean np_std (f_i <$> cs)).
Proof.
  intros Hlen. eexists _, _.
  split; [apply dataset_counts_sentence_counts |].
  split; [apply evaluate_dataset_ok, Hlen |].
  destruct complete_metrics; reflexivity.
Qed.

(** C5. On lists of equal length, with [complete_metrics] set the result
    has a fourth component holding the sums of the per-sentence [tp],
    [fp] and [fn] and the indices of exactly the sentences with
    [fp > 0] or [fn > 0]; without it the result is the three scores
    alone. *)
Theorem evaluate_dataset_metrics pred_tokens true_tokens :
  length pred_tokens = length true_tokens →
  ∃ cs,
    sentence_counts pred_tokens true_tokens cs ∧
    (∃ p r f m,
       evaluate_dataset np_mean np_std pred_tokens true_tokens true =
         Ok (ScoresAndMetrics p r f m) ∧
       true_positives m = sumZ (tp_of <$> cs) ∧
       false_positives m = sumZ (fp_of <$> cs) ∧
       false_negatives m = sumZ (fn_of <$> cs) ∧
       ∀ i, i ∈ incorrect_sentences_ids m ↔ ∃ c, cs !! i = Some c ∧ incorrect c) ∧
    (∃ p r f,
       evaluate_dataset np_mean np_std pred_tokens true_tokens false = Ok (Scores p r f)).
Proof.
  intros Hlen. exists (dataset_counts pred_tokens true_tokens).
  split; [apply dataset_counts_sentence_counts |]. split.
  - eexists _, _, _, _.
    split; [rewrite evaluate_dataset_ok by exact Hlen; reflexivity |].
    cbn [dataset_result true_positives false_positives false_negatives
         incorrect_sentences_ids state_after st_true_positives st_false_positives
         st_false_negatives st_incorrect_sentences_ids].
    repeat split; try reflexivity.
    + intros (_ & c & Hc & Hb)%elem_of_incorrect_from. rewrite Nat.sub_0_r in Hc.
      exists c. split; [exact Hc | apply incorrectb_spec, Hb].
    + intros (c & Hc & Hb). apply elem_of_incorrect_from. split; [lia |].
      exists c. rewrite Nat.sub_0_r. split; [exact Hc | apply incorrectb_spec, Hb].
  - eexists _, _, _. rewrite evaluate_dataset_ok by exact Hlen. reflexivity.
Qed.

(** C9. On lists of equal length, [evaluate_dataset] returns the same
    three scores with [complete_metrics] set and unset; the flag only
    adds the fourth component. *)
Theorem complete_metrics_keeps_scores pred_tokens true_tokens :
  length pred_tokens = length true_tokens →
  ∃ p r f m,
    evaluate_dataset np_mean np_std pred_tokens true_tokens true =
      Ok (ScoresAndMetrics p r f m) ∧
    evaluate_dataset np_mean np_std pred_tokens true_tokens false = Ok (Scores p r f).
Proof.
  intros Hlen. eexists _, _, _, _.
  split; rewrite evaluate_dataset_ok by exact Hlen; reflexivity.
Qed.

(** C10. On lists of equal length [n], the [incorrect_sentences_ids]
    returned with [complete_metrics] set are strictly increasing, and
    each is at least [0] and less than [n]. *)
Theorem incorrect_ids_increasing pred_tokens true_tokens :
  length pred_tokens = length true_tokens →
  ∃ p r f m,
    evaluate_dataset np_mean np_std pred_tokens true_tokens true =
      Ok (ScoresAndMetrics p r f m) ∧
    StronglySorted lt (incorrect_sentences_ids m) ∧
    Forall (λ i, (0 ≤ i < length pred_tokens)%nat) (incorrect_sentences_ids m).
Proof.
  intros Hlen. eexists _, _, _, _.
  split; [rewrite evaluate_dataset_ok by exact Hlen; reflexivity |].
  cbn [dataset_result incorrect_sentences_ids state_after st_incorrect_sentences_ids].
  split; [apply incorrect_from_sorted |].
  apply Forall_forall. intros i (_ & c & Hc & _)%elem_of_incorrect_from.
  apply lookup_lt_Some in Hc. rewrite dataset_counts_length in Hc by exact Hlen. lia.
Qed.

End DatasetTheorems.

(** ** The theorems at the sample dataset *)

Example sample_loop :
  dataset_loop sample_pred sample_true =
    Ok {| st_true_positives := 1;
          st_false_positives := 2;
          st_false_negatives := 1;
          st_incorrect_sentences_ids := [0; 1; 2]%nat;
          st_precision_scores :=
            [S754_finite false 9007199250237392 (-54); F64.zero; F64.zero];
          st_recall_scores :=
            [S754_finite false 9007199245733792 (-53); F64.zero; F64.zero];
          st_f_scores :=
            [S754_finite false 6004799495154261 (-53); F64.zero; F64.zero] |}.
Proof. vm_compute. reflexivity. Qed.

(** Two identical lists of one single-token sentence: the scores are
    [1 / (1 + 1e-9)] and its f-score, with deviation [0.0], and no
    sentence is incorrect. *)
Example identical_single_token :
  evaluate_dataset Stats.mean Stats.std [["a"]%string] [["a"]%string] true =
    Ok (ScoresAndMetrics
          (S754_finite false 9007199245733792 (-53), F64.zero)
          (S754_finite false 9007199245733792 (-53), F64.zero)
          (S754_finite false 9007199241230192 (-53), F64.zero)
          {| true_positives := 1; false_positives := 0; false_negatives := 0;
             incorrect_sentences_ids := [] |}).
Proof. vm_compute. reflexivity. Qed.

(** Sentences that are empty on both sides: every score is [0.0]. *)
Example empty_sentences :
  evaluate_dataset Stats.mean Stats.std [[]; []] [[]; [] : list string] true =
    Ok (ScoresAndMetrics (F64.zero, F64.zero) (F64.zero, F64.zero) (F64.zero, F64.zero)
          {| true_positives := 0; false_positives := 0; false_negatives := 0;
             incorrect_sentences_ids := [] |}).
Proof. vm_compute. reflexivity. Qed.

Example mismatch_raises :
  evaluate_dataset Stats.mean Stats.std [["a"]%string; []] [["a"]%string] false =
    Raise AssertionError.
Proof. vm_compute. reflexivity. Qed.

Lemma evaluate_dataset_scores_sample :
  length sample_pred = length sample_true ∧
  ∃ cs res,
    sentence_counts sample_pred sample_true cs ∧
    evaluate_dataset Stats.mean Stats.std sample_pred sample_true true = Ok res ∧
    scores_of res =
      (mean_std Stats.mean Stats.std (precision_i <$> cs),
       mean_std Stats.mean Stats.std (recall_i <$> cs),
       mean_std Stats.mean Stats.std (f_i <$> cs)).
Proof.
  split; [reflexivity |].
  apply (evaluate_dataset_scores Stats.mean Stats.std sample_pred sample_true true).
  reflexivity.
Defined.

Lemma evaluate_dataset_metrics_sample :
  length sample_pred = length sample_true ∧
  ∃ cs,
    sentence_counts sample_pred sample_true cs ∧
    (∃ p r f m,
       evaluate_dataset Stats.mean Stats.std sample_pred sample_true true =
         Ok (ScoresAndMetrics p r f m) ∧
       true_positives m = sumZ (tp_of <$> cs) ∧
       false_positives m = sumZ (fp_of <$> cs) ∧
       false_negatives m = sumZ (fn_of <$> cs) ∧
       ∀ i, i ∈ incorrect_sentences_ids m ↔ ∃ c, cs !! i = Some c ∧ incorrect c) ∧
    (∃ p r f,
       evaluate_dataset Stats.mean Stats.std sample_pred sample_true false =
         Ok (Scores p r f)).
Proof.
  split; [reflexivity |].
  apply (evaluate_dataset_metrics Stats.mean Stats.std sample_pred sample_true).
  reflexivity.
Defined.

Lemma complete_metrics_keeps_scores_sample :
  length sample_pred = length sample_true ∧
  ∃ p r f m,
    evaluate_dataset Stats.mean Stats.std sample_pred sample_true true =
      Ok (ScoresAndMetrics p r f m) ∧
    evaluate_dataset Stats.mean Stats.std sample_pred sample_true false =
      Ok (Scores p r f).
Proof.
  split; [reflexivity |].
  apply (complete_metrics_keeps_scores Stats.mean Stats.std sample_pred sample_true).
  reflexivity.
Defined.

Lemma incorrect_ids_increasing_sample :
  length sample_pred = length sample_true ∧
  ∃ p r f m,
    evaluate_dataset Stats.mean Stats.std sample_pred sample_true true =
      Ok (ScoresAndMetrics p r f m) ∧
    StronglySorted lt (incorrect_sentences_ids m) ∧
    Forall (λ i, (0 ≤ i < length sample_pred)%nat) (incorrect_sentences_ids m).
Proof.
  split; [reflexivity |].
  apply (incorrect_ids_increasing Stats.mean Stats.std sample_pred sample_true).
  reflexivity.
Defined.

(** * Further properties *)

(** ** The table after the loops *)

Section TableAfter.
Context {T : Type} `{EqDecision T}.
Implicit Types left right : list T.

(** X1. After the two loops every cell [L[i][j]] of the table, for
    [i ≤ len(left)] and [j ≤ len(right)], holds an integer (none is left
    [None]): the length of a longest common subsequence of the first
    [i] tokens of [left] and the first [j] tokens of [right]. *)
Theorem filled_table_cells left right :
  ∃ L,
    fill_table left right (length left) (length right)
      (new_table (length left) (length right)) = Ok L ∧
    ∀ i j, (i ≤ length left)%nat → (j ≤ length right)%nat →
      ∃ k, table_get L i j = Ok (Some k) ∧
           lcs_length (take i left) (take j right) k.
Proof.
  destruct (fill_table_inv left right) as (L & Hrun & _ & Hfill).
  exists L. split; [exact Hrun |]. intros i j Hi Hj.
  exists (lcs_rec left right i j). split.
  - apply table_get_ok, Hfill; lia.
  - apply lcs_rec_prefixes; assumption.
Qed.

End TableAfter.

(** ** How the length of the common subsequence varies with the input *)

Section LCSAlgebra.
Context {T : Type} `{EqDecision T}.
Implicit Types A B P S s : list T.

Lemma lcts_of_lcs_length A B k :
  lcs_length A B k → longest_common_token_sequence A B = Ok k.
Proof.
  intros Hk. rewrite lcts_is_lcs_rec. f_equal.
  apply (lcs_length_unique A B); [apply lcs_rec_lcs_length | exact Hk].
Qed.

Lemma lcts_lcs_length A B k :
  longest_common_token_sequence A B = Ok k → lcs_length A B k.
Proof. rewrite lcts_is_lcs_rec. intros [= <-]. apply lcs_rec_lcs_length. Qed.

Lemma sublist_same_length s A : s `sublist_of` A → length s = length A → s = A.
Proof.
  induction 1 as [|x s A Hs IH|x s A Hs IH]; simpl; intros Hlen.
  - reflexivity.
  - f_equal. apply IH. lia.
  - apply sublist_length in Hs. lia.
Qed.

Lemma lcs_length_full A B : lcs_length A B (Py.len A) ↔ A `sublist_of` B.
Proof.
  split.
  - intros [(s & [HsA HsB] & Hlen) _].
    rewrite <- (sublist_same_length s A HsA); [exact HsB |].
    unfold Py.len in Hlen. lia.
  - intros HAB. split.
    + exists A. repeat split; [reflexivity | exact HAB].
    + intros s [Hs _]. apply sublist_length in Hs. unfold Py.len. lia.
Qed.

Lemma lcs_length_mono A A' B B' k k' :
  A `sublist_of` A' → B `sublist_of` B' →
  lcs_length A B k → lcs_length A' B' k' → k ≤ k'.
Proof.
  intros HA HB [(s & [HsA HsB] & <-) _] [_ Hmax].
  apply Hmax. split; [by etrans; [exact HsA |] | by etrans; [exact HsB |]].
Qed.

Lemma lcs_length_insert A1 A2 (x : T) B k k' :
  lcs_length (A1 ++ A2) B k → lcs_length (A1 ++ x :: A2) B k' → k ≤ k' ≤ k + 1.
Proof.
  intros Hk Hk'. split.
  - apply (lcs_length_mono (A1 ++ A2) (A1 ++ x :: A2) B B); try assumption; [| reflexivity].
    apply sublist_app; [reflexivity | apply sublist_cons; reflexivity].
  - destruct Hk as [_ Hmax], Hk' as [(s & [HsA HsB] & <-) _].
    apply sublist_app_r in HsA as (s1 & s2 & -> & Hs1 & Hs2).
    apply sublist_cons_r in Hs2 as [Hs2|(s2' & -> & Hs2)].
    + pose proof (Hmax (s1 ++ s2) (conj (sublist_app _ _ _ _ Hs1 Hs2) HsB)). lia.
    + assert (Hsub : s1 ++ s2' `sublist_of` s1 ++ x :: s2').
      { apply sublist_app; [reflexivity | apply sublist_cons; reflexivity]. }
      assert (HB' : s1 ++ s2' `sublist_of` B) by (etrans; eassumption).
      pose proof (Hmax (s1 ++ s2') (conj (sublist_app _ _ _ _ Hs1 Hs2) HB')) as Hle.
      unfold Py.len in *. rewrite !length_app in *. simpl. lia.
Qed.

Lemma lcs_length_app A1 A2 B1 B2 k1 k2 k :
  lcs_length A1 B1 k1 → lcs_length A2 B2 k2 →
  lcs_length (A1 ++ A2) (B1 ++ B2) k → k1 + k2 ≤ k.
Proof.
  intros [(s1 & [Ha1 Hb1] & <-) _] [(s2 & [Ha2 Hb2] & <-) _] [_ Hmax].
  rewrite <- len_app. apply Hmax. split; apply sublist_app; assumption.
Qed.

Lemma lcs_length_cons_eq A B (x : T) k :
  lcs_length A B k → lcs_length (x :: A) (x :: B) (k + 1).
Proof.
  intros [(s & [Ha Hb] & Hk) Hmax]. split.
  - exists (x :: s). repeat split; try (apply sublist_skip; assumption).
    unfold Py.len in *. simpl. lia.
  - intros s' [Ha' Hb'].
    apply sublist_cons_r in Ha' as [Ha'|(s1 & -> & Ha')].
    + apply sublist_cons_r in Hb' as [Hb'|(s2 & -> & Hb')].
      * pose proof (Hmax s' (conj Ha' Hb')). lia.
      * assert (Hs2 : s2 `sublist_of` A).
        { etrans; [| exact Ha']. apply sublist_cons. reflexivity. }
        pose proof (Hmax s2 (conj Hs2 Hb')). unfold Py.len in *. simpl. lia.
    + apply sublist_cons_r in Hb' as [Hb'|(s2 & [= <-] & Hb')].
      * assert (Hs1 : s1 `sublist_of` B).
        { etrans; [| exact Hb']. apply sublist_cons. reflexivity. }
        pose proof (Hmax s1 (conj Ha' Hs1)). unfold Py.len in *. simpl. lia.
      * pose proof (Hmax s1 (conj Ha' Hb')). unfold Py.len in *. simpl. lia.
Qed.

Lemma lcs_length_prefix P A B k :
  lcs_length A B k → lcs_length (P ++ A) (P ++ B) (Py.len P + k).
Proof.
  intros Hk. induction P as [|x P IH]; simpl.
  - replace (Py.len [] + k) with k by (unfold Py.len; simpl; lia). exact Hk.
  - replace (Py.len (x :: P) + k) with (Py.len P + k + 1)
      by (unfold Py.len; simpl; lia).
    apply lcs_length_cons_eq, IH.
Qed.

Lemma lcs_length_suffix S A B k :
  lcs_length A B k → lcs_length (A ++ S) (B ++ S) (k + Py.len S).
Proof.
  intros Hk. induction S as [|x S IH] using rev_ind.
  - rewrite !app_nil_r. replace (k + Py.len []) with k by (unfold Py.len; simpl; lia).
    exact Hk.
  - rewrite !app_assoc, len_app.
    replace (k + (Py.len S + Py.len [x])) with (k + Py.len S + 1)
      by (unfold Py.len; simpl; lia).
    apply lcs_length_snoc_eq, IH.
Qed.

Lemma lcs_length_zero A B : lcs_length A B 0 ↔ ∀ x, x ∈ A → x ∉ B.
Proof.
  split.
  - intros [_ Hmax] x HA HB.
    assert (Hc : common_subseq [x] A B) by (split; apply singleton_sublist_l; assumption).
    apply Hmax in Hc. unfold Py.len in Hc. simpl in Hc. lia.
  - intros Hdisj. split.
    + exists []. repeat split; apply sublist_nil_l.
    + intros [|x s] [Ha Hb]; [reflexivity |]. exfalso. apply (Hdisj x).
      * eapply elem_of_sublist; [| exact Ha]. left.
      * eapply elem_of_sublist; [| exact Hb]. left.
Qed.

End LCSAlgebra.

Section SentenceExtras.
Context {T : Type} `{EqDecision T}.
Implicit Types A B P S pred_tokens true_tokens : list T.

(** X2. [evaluate_sentence] reports no false positive exactly when the
    predicted tokens are a subsequence of the true tokens, and no false
    negative exactly when the true tokens are a subsequence of the
    predicted ones. *)
Theorem no_false_positive_iff_subsequence pred_tokens true_tokens :
  ∃ tp fp fn,
    evaluate_sentence pred_tokens true_tokens = Ok (tp, fp, fn) ∧
    (fp = 0 ↔ pred_tokens `sublist_of` true_tokens) ∧
    (fn = 0 ↔ true_tokens `sublist_of` pred_tokens).
Proof.
  eexists _, _, _. split; [apply evaluate_sentence_ok |]. cbv zeta.
  pose proof (lcs_rec_lcs_length pred_tokens true_tokens) as Hk.
  set (k := lcs_rec pred_tokens true_tokens (length pred_tokens) (length true_tokens)) in *.
  split.
  - rewrite <- lcs_length_full. split.
    + intros Hfp. replace (Py.len pred_tokens) with k by lia. exact Hk.
    + intros Hfull. pose proof (lcs_length_unique _ _ _ _ Hk Hfull). lia.
  - rewrite <- lcs_length_full. split.
    + intros Hfn. replace (Py.len true_tokens) with k by lia.
      apply lcs_length_sym, Hk.
    + intros Hfull. apply lcs_length_sym in Hfull.
      pose proof (lcs_length_unique _ _ _ _ Hk Hfull). lia.
Qed.

(** X3. [evaluate_sentence] returns no false positive and no false
    negative exactly when the two token sequences are equal. *)
Theorem perfect_sentence_iff_equal pred_tokens true_tokens :
  (∃ tp, evaluate_sentence pred_tokens true_tokens = Ok (tp, 0, 0)) ↔
  pred_tokens = true_tokens.
Proof.
  rewrite evaluate_sentence_ok. cbv zeta.
  pose proof (lcs_rec_lcs_length pred_tokens true_tokens) as Hk.
  set (k := lcs_rec pred_tokens true_tokens (length pred_tokens) (length true_tokens)) in *.
  split.
  - intros (tp & [= Htp Hfp Hfn]).
    assert (Hp : lcs_length pred_tokens true_tokens (Py.len pred_tokens))
      by (replace (Py.len pred_tokens) with k by lia; exact Hk).
    assert (Ht : lcs_length true_tokens pred_tokens (Py.len true_tokens))
      by (replace (Py.len true_tokens) with k by lia; apply lcs_length_sym, Hk).
    apply lcs_length_full in Hp, Ht. apply (anti_symm sublist); assumption.
  - intros <-. exists k.
    pose proof (lcs_length_unique _ _ _ _ Hk (lcs_length_refl pred_tokens)) as ->.
    do 2 f_equal; [f_equal |]; lia.
Qed.

(** X4. Exchanging the predicted and the true tokens keeps the true
    positives and exchanges the false positives with the false
    negatives. *)
Theorem evaluate_sentence_swap pred_tokens true_tokens :
  ∃ tp fp fn,
    evaluate_sentence pred_tokens true_tokens = Ok (tp, fp, fn) ∧
    evaluate_sentence true_tokens pred_tokens = Ok (tp, fn, fp).
Proof.
  eexists _, _, _. split; [apply evaluate_sentence_ok |].
  rewrite evaluate_sentence_ok. cbv zeta.
  rewrite (lcs_length_unique _ _ _ _
             (lcs_rec_lcs_length true_tokens pred_tokens)
             (lcs_length_sym _ _ _ (lcs_rec_lcs_length pred_tokens true_tokens))).
  reflexivity.
Qed.

(** X5. With an empty side nothing matches: [evaluate_sentence] counts
    every true token as a false negative when the prediction is empty,
    and every predicted token as a false positive when the truth is
    empty. *)
Theorem evaluate_sentence_empty pred_tokens true_tokens :
  evaluate_sentence [] true_tokens = Ok (0, 0, Py.len true_tokens) ∧
  evaluate_sentence pred_tokens [] = Ok (0, Py.len pred_tokens, 0).
Proof.
  rewrite !evaluate_sentence_ok. cbv zeta.
  rewrite (lcs_length_unique _ _ _ _
             (lcs_rec_lcs_length [] true_tokens) (lcs_length_nil_l true_tokens)).
  rewrite (lcs_length_unique _ _ _ _
             (lcs_rec_lcs_length pred_tokens []) (lcs_length_nil_r pred_tokens)).
  split; do 2 f_equal; try f_equal; unfold Py.len; simpl; lia.
Qed.

(** X6. [longest_common_token_sequence] returns [0] exactly when the
    two sequences share no token. *)
Theorem lcts_zero_iff_disjoint A B :
  longest_common_token_sequence A B = Ok 0 ↔ ∀ x, x ∈ A → x ∉ B.
Proof.
  rewrite <- lcs_length_zero. split; [apply lcts_lcs_length | apply lcts_of_lcs_length].
Qed.

(** X7. Removing tokens from either sequence never increases the result
    of [longest_common_token_sequence]: if [A] is a subsequence of [A']
    and [B] of [B'], the result on [A, B] is at most that on [A', B']. *)
Theorem lcts_monotone A A' B B' :
  A `sublist_of` A' → B `sublist_of` B' →
  ∃ k k',
    longest_common_token_sequence A B = Ok k ∧
    longest_common_token_sequence A' B' = Ok k' ∧
    k ≤ k'.
Proof.
  intros HA HB. eexists _, _. split; [apply lcts_is_lcs_rec |].
  split; [apply lcts_is_lcs_rec |].
  eapply (lcs_length_mono A A' B B'); try eassumption; apply lcs_rec_lcs_length.
Qed.

(** X8. Inserting one token anywhere in one sequence leaves the result
    of [longest_common_token_sequence] unchanged or adds one to it. *)
Theorem lcts_insert_token A1 A2 (x : T) B :
  ∃ k k',
    longest_common_token_sequence (A1 ++ A2) B = Ok k ∧
    longest_common_token_sequence (A1 ++ x :: A2) B = Ok k' ∧
    k ≤ k' ≤ k + 1.
Proof.
  eexists _, _. split; [apply lcts_is_lcs_rec |].
  split; [apply lcts_is_lcs_rec |].
  apply (lcs_length_insert A1 A2 x B); apply lcs_rec_lcs_length.
Qed.

(** X9. A prefix or a suffix common to both sequences adds its length
    to the result of [longest_common_token_sequence]. *)
Theorem lcts_common_affix P S A B :
  ∃ k,
    longest_common_token_sequence A B = Ok k ∧
    longest_common_token_sequence (P ++ A) (P ++ B) = Ok (Py.len P + k) ∧
    longest_common_token_sequence (A ++ S) (B ++ S) = Ok (k + Py.len S).
Proof.
  eexists. split; [apply lcts_is_lcs_rec |]. split.
  - apply lcts_of_lcs_length, lcs_length_prefix, lcs_rec_lcs_length.
  - apply lcts_of_lcs_length, lcs_length_suffix, lcs_rec_lcs_length.
Qed.

(** X10. On concatenated sequences the result of
    [longest_common_token_sequence] is at least the sum of the results
    on the parts. *)
Theorem lcts_concat A1 A2 B1 B2 :
  ∃ k1 k2 k,
    longest_common_token_sequence A1 B1 = Ok k1 ∧
    longest_common_token_sequence A2 B2 = Ok k2 ∧
    longest_common_token_sequence (A1 ++ A2) (B1 ++ B2) = Ok k ∧
    k1 + k2 ≤ k.
Proof.
  eexists _, _, _. repeat (split; [apply lcts_is_lcs_rec |]).
  apply (lcs_length_app A1 A2 B1 B2); apply lcs_rec_lcs_length.
Qed.

End SentenceExtras.

Lemma lcts_monotone_sample :
  ["a"; "c"]%string `sublist_of` ["a"; "b"; "c"]%string ∧
  ["c"]%string `sublist_of` ["a"; "c"]%string ∧
  ∃ k k',
    longest_common_token_sequence ["a"; "c"]%string ["c"]%string = Ok k ∧
    longest_common_token_sequence ["a"; "b"; "c"]%string ["a"; "c"]%string = Ok k' ∧
    k ≤ k'.
Proof.
  assert (H1 : ["a"; "c"]%string `sublist_of` ["a"; "b"; "c"]%string)
    by (apply sublist_skip, sublist_cons, sublist_skip, sublist_nil).
  assert (H2 : ["c"]%string `sublist_of` ["a"; "c"]%string)
    by (apply sublist_cons, sublist_skip, sublist_nil).
  split; [exact H1 |]. split; [exact H2 |].
  apply (lcts_monotone _ _ _ _ H1 H2).
Defined.

(** ** The counts of a dataset *)

Lemma sumZ_app (l1 l2 : list Z) : sumZ (l1 ++ l2) = sumZ l1 + sumZ l2.
Proof. unfold sumZ. induction l1 as [|x l1 IH]; simpl; lia. Qed.

Lemma incorrect_from_shift (k : nat) (cs : list (Z * Z * Z)) :
  incorrect_from k cs = (λ i, k + i)%nat <$> incorrect_from 0 cs.
Proof.
  revert k. induction cs as [|c cs IH]; intros k; simpl; [reflexivity |].
  rewrite fmap_app, (IH (S k)), (IH 1%nat), <- list_fmap_compose.
  f_equal.
  - destruct (incorrectb c); simpl; [rewrite Nat.add_0_r |]; reflexivity.
  - apply list_fmap_ext. intros _ i _. simpl. lia.
Qed.

Lemma incorrect_from_app (k : nat) (cs1 cs2 : list (Z * Z * Z)) :
  incorrect_from k (cs1 ++ cs2) =
    incorrect_from k cs1 ++ incorrect_from (k + length cs1) cs2.
Proof.
  revert k. induction cs1 as [|c cs1 IH]; intros k; simpl.
  - rewrite Nat.add_0_r. reflexivity.
  - rewrite IH, <- app_assoc. replace (S k + length cs1)%nat with (k + S (length cs1))%nat by lia.
    reflexivity.
Qed.

Lemma sumZ_nonneg (l : list Z) : Forall (λ x, 0 ≤ x) l → 0 ≤ sumZ l.
Proof. unfold sumZ. induction 1; simpl; lia. Qed.

Lemma incorrect_from_nil (k : nat) (cs : list (Z * Z * Z)) :
  Forall counts_ok cs →
  incorrect_from k cs = [] ↔ sumZ (fp_of <$> cs) = 0 ∧ sumZ (fn_of <$> cs) = 0.
Proof.
  intros Hok. revert k. induction Hok as [|c cs (Htp & Hfp & Hfn) Hok IH]; intros k.
  - simpl. tauto.
  - assert (Hsfp : 0 ≤ sumZ (fp_of <$> cs)).
    { apply sumZ_nonneg, Forall_fmap. eapply Forall_impl; [exact Hok |].
      intros c0 (_ & H0 & _). exact H0. }
    assert (Hsfn : 0 ≤ sumZ (fn_of <$> cs)).
    { apply sumZ_nonneg, Forall_fmap. eapply Forall_impl; [exact Hok |].
      intros c0 (_ & _ & H0). exact H0. }
    cbn [incorrect_from fmap list_fmap]. unfold sumZ in *. cbn [foldr].
    specialize (IH (S k)). unfold incorrectb.
    destruct (Z.gtb_spec (fp_of c) 0), (Z.gtb_spec (fn_of c) 0); simpl;
      try (split; [discriminate | lia]).
    rewrite IH. lia.
Qed.

Section DatasetAlgebra.
Context {T : Type} `{EqDecision T}.
Implicit Types pred_tokens true_tokens : list (list T).

Lemma counts_of_incorrect (p t : list T) : incorrectb (counts_of p t) = true ↔ p ≠ t.
Proof.
  pose proof (lcs_rec_lcs_length p t) as Hk.
  pose proof (lcs_length_bounds _ _ _ Hk) as Hb.
  unfold incorrectb, counts_of, fp_of, fn_of. cbv zeta. cbn [fst snd].
  set (k := lcs_rec p t (length p) (length t)) in *.
  rewrite orb_true_iff. split.
  - intros Hpos <-.
    pose proof (lcs_length_unique _ _ _ _ Hk (lcs_length_refl p)).
    destruct Hpos as [Hpos|Hpos]; apply Z.gtb_lt in Hpos; lia.
  - intros Hne.
    destruct (Z.gtb_spec (Py.len p - k) 0); [left; reflexivity |].
    destruct (Z.gtb_spec (Py.len t - k) 0); [right; reflexivity |].
    exfalso. apply Hne.
    assert (Hp : lcs_length p t (Py.len p)) by (replace (Py.len p) with k by lia; exact Hk).
    assert (Ht : lcs_length t p (Py.len t))
      by (replace (Py.len t) with k by lia; apply lcs_length_sym, Hk).
    apply lcs_length_full in Hp, Ht. apply (anti_symm sublist); assumption.
Qed.

Lemma dataset_counts_ok pred_tokens true_tokens :
  Forall counts_ok (dataset_counts pred_tokens true_tokens).
Proof.
  unfold dataset_counts. revert true_tokens.
  induction pred_tokens as [|p ps IH]; intros [|t ts]; simpl; constructor.
  - apply counts_of_ok.
  - apply IH.
Qed.

Lemma dataset_counts_totals pred_tokens true_tokens :
  length pred_tokens = length true_tokens →
  sumZ (tp_of <$> dataset_counts pred_tokens true_tokens) +
    sumZ (fp_of <$> dataset_counts pred_tokens true_tokens) = total_tokens pred_tokens ∧
  sumZ (tp_of <$> dataset_counts pred_tokens true_tokens) +
    sumZ (fn_of <$> dataset_counts pred_tokens true_tokens) = total_tokens true_tokens.
Proof.
  unfold dataset_counts, total_tokens, sumZ. revert true_tokens.
  induction pred_tokens as [|p ps IH]; intros [|t ts]; try discriminate.
  - intros _. split; reflexivity.
  - intros [= Hlen]. destruct (IH ts Hlen) as [IH1 IH2].
    cbn [zip_with fmap list_fmap foldr].
    assert (Hp : tp_of (counts_of p t) + fp_of (counts_of p t) = Py.len p)
      by (unfold counts_of, tp_of, fp_of; simpl; lia).
    assert (Ht : tp_of (counts_of p t) + fn_of (counts_of p t) = Py.len t)
      by (unfold counts_of, tp_of, fn_of; simpl; lia).
    lia.
Qed.

Lemma dataset_counts_app (pred1 true1 pred2 true2 : list (list T)) :
  length pred1 = length true1 →
  dataset_counts (pred1 ++ pred2) (true1 ++ true2) =
    dataset_counts pred1 true1 ++ dataset_counts pred2 true2.
Proof. intros Hlen. unfold dataset_counts. apply zip_with_app, Hlen. Qed.

End DatasetAlgebra.

(** ** The signs of the scores *)

Module F64Sign.
Import F64 F64Class F64Facts.

Lemma nonneg_cases x : nonneg x → x = zero ∨ positive x.
Proof. destruct x as [[]|[]| |[] ? ?]; simpl; auto. Qed.

Lemma mul_closed x y : nan_or_nonneg x → nan_or_nonneg y → nan_or_nonneg (mul x y).
Proof.
  intros [->|Hx] [->|Hy]; try (left; reflexivity).
  - left. destruct x as [[]|[]| |[] ? ?]; reflexivity.
  - destruct x as [[]|[]| |[] mx ex], y as [[]|[]| |[] my ey]; simpl in Hx, Hy;
      try tauto; try (right; exact I); try (left; reflexivity).
    right. apply binary_round_aux_spec. lia.
Qed.

Lemma div_closed x y : nan_or_nonneg x → nan_or_nonneg y → nan_or_nonneg (div x y).
Proof.
  intros [->|Hx] [->|Hy]; try (left; reflexivity).
  - left. destruct x as [[]|[]| |[] ? ?]; reflexivity.
  - destruct (nonneg_cases y Hy) as [->|Hpos]; [| apply div_sign; assumption].
    destruct x as [[]|[]| |[] ? ?]; simpl in Hx; try tauto;
      try (right; exact I); left; reflexivity.
Qed.

Lemma f_i_sign (c : Z * Z * Z) : counts_ok c → nan_or_nonneg (f_i c).
Proof.
  intros Hok. unfold f_i. cbv zeta.
  pose proof (ScoreFacts.precision_i_sign c Hok) as Hp.
  pose proof (ScoreFacts.recall_i_sign c Hok) as Hr.
  apply div_closed.
  - apply mul_closed; [apply mul_closed |]; try assumption.
    right. apply of_int_nonneg. lia.
  - apply add_sign; [apply add_sign; assumption |].
    right. apply positive_nonneg, eps_positive.
Qed.

End F64Sign.

(** ** [evaluate_dataset]: totals and incorrect sentences *)

Section DatasetExtras.
Context {T : Type} `{EqDecision T}.
Variables np_mean np_std : list F64.float → F64.float.
Implicit Types pred_tokens true_tokens : list (list T).

(** X11. On lists of equal length, the totals returned with
    [complete_metrics] set are not negative, the true and the false
    positives add up to the number of predicted tokens of the dataset,
    and the true positives and the false negatives to its number of
    true tokens. *)
Theorem dataset_totals pred_tokens true_tokens :
  length pred_tokens = length true_tokens →
  ∃ p r f m,
    evaluate_dataset np_mean np_std pred_tokens true_tokens true =
      Ok (ScoresAndMetrics p r f m) ∧
    true_positives m + false_positives m = total_tokens pred_tokens ∧
    true_positives m + false_negatives m = total_tokens true_tokens ∧
    0 ≤ true_positives m ∧ 0 ≤ false_positives m ∧ 0 ≤ false_negatives m.
Proof.
  intros Hlen. eexists _, _, _, _.
  split; [rewrite evaluate_dataset_ok by exact Hlen; reflexivity |].
  cbn [dataset_result true_positives false_positives false_negatives state_after
       st_true_positives st_false_positives st_false_negatives].
  destruct (dataset_counts_totals pred_tokens true_tokens Hlen) as [H1 H2].
  pose proof (dataset_counts_ok pred_tokens true_tokens) as Hok.
  repeat split; try assumption; apply sumZ_nonneg, Forall_fmap;
    (eapply Forall_impl; [exact Hok |]); intros c (? & ? & ?); assumption.
Qed.

(** X12. On lists of equal length, [incorrect_sentences_ids] holds [i]
    exactly when the predicted and the true tokens of sentence [i]
    differ. *)
Theorem incorrect_iff_differ pred_tokens true_tokens :
  length pred_tokens = length true_tokens →
  ∃ p r f m,
    evaluate_dataset np_mean np_std pred_tokens true_tokens true =
      Ok (ScoresAndMetrics p r f m) ∧
    ∀ i, i ∈ incorrect_sentences_ids m ↔
         ∃ ps ts, pred_tokens !! i = Some ps ∧ true_tokens !! i = Some ts ∧ ps ≠ ts.
Proof.
  intros Hlen. eexists _, _, _, _.
  split; [rewrite evaluate_dataset_ok by exact Hlen; reflexivity |].
  cbn [dataset_result incorrect_sentences_ids state_after st_incorrect_sentences_ids].
  intros i. rewrite elem_of_incorrect_from, Nat.sub_0_r, dataset_counts_lookup. split.
  - intros (_ & c & Hc & Hb).
    destruct (pred_tokens !! i) as [ps|]; [| discriminate].
    destruct (true_tokens !! i) as [ts|]; [| discriminate].
    injection Hc as <-. exists ps, ts. repeat split. apply counts_of_incorrect, Hb.
  - intros (ps & ts & -> & -> & Hne). split; [lia |].
    exists (counts_of ps ts). split; [reflexivity | apply counts_of_incorrect, Hne].
Qed.

(** X13. On lists of equal length, [incorrect_sentences_ids] is empty
    exactly when the predicted dataset equals the true one, and exactly
    when the totals of false positives and false negatives are both
    [0]. *)
Theorem all_correct_iff_equal pred_tokens true_tokens :
  length pred_tokens = length true_tokens →
  ∃ p r f m,
    evaluate_dataset np_mean np_std pred_tokens true_tokens true =
      Ok (ScoresAndMetrics p r f m) ∧
    (incorrect_sentences_ids m = [] ↔ pred_tokens = true_tokens) ∧
    (incorrect_sentences_ids m = [] ↔ false_positives m = 0 ∧ false_negatives m = 0).
Proof.
  intros Hlen. eexists _, _, _, _.
  split; [rewrite evaluate_dataset_ok by exact Hlen; reflexivity |].
  cbn [dataset_result incorrect_sentences_ids false_positives false_negatives state_after
       st_incorrect_sentences_ids st_false_positives st_false_negatives].
  split; [| apply incorrect_from_nil, dataset_counts_ok].
  split.
  - intros Hnil. apply list_eq. intros i.
    destruct (pred_tokens !! i) as [ps|] eqn:Hp, (true_tokens !! i) as [ts|] eqn:Ht.
    + f_equal. destruct (decide (ps = ts)) as [|Hne]; [assumption | exfalso].
      assert (Hin : i ∈ incorrect_from 0 (dataset_counts pred_tokens true_tokens)).
      { apply elem_of_incorrect_from. split; [lia |]. exists (counts_of ps ts).
        rewrite Nat.sub_0_r, dataset_counts_lookup, Hp, Ht.
        split; [reflexivity | apply counts_of_incorrect, Hne]. }
      rewrite Hnil in Hin. apply elem_of_nil in Hin as [].
    + apply lookup_lt_Some in Hp. apply lookup_ge_None in Ht. lia.
    + apply lookup_lt_Some in Ht. apply lookup_ge_None in Hp. lia.
    + reflexivity.
  - intros <-. apply elem_of_nil_inv. intros i Hin.
    apply elem_of_incorrect_from in Hin as (_ & c & Hc & Hb).
    rewrite dataset_counts_lookup in Hc.
    destruct (pred_tokens !! (i - 0)%nat) as [ps|]; [| discriminate].
    injection Hc as <-. apply counts_of_incorrect in Hb. congruence.
Qed.

(** X14. When two datasets, each with lists of equal length, are
    evaluated as one, the loop ends with the sums of their counts, the
    concatenations of their per-sentence scores, and the incorrect
    sentences of the first followed by those of the second shifted by
    the size of the first. *)
Theorem dataset_loop_concat (pred1 true1 pred2 true2 : list (list T)) :
  length pred1 = length true1 → length pred2 = length true2 →
  ∃ s1 s2 s,
    dataset_loop pred1 true1 = Ok s1 ∧
    dataset_loop pred2 true2 = Ok s2 ∧
    dataset_loop (pred1 ++ pred2) (true1 ++ true2) = Ok s ∧
    st_true_positives s = st_true_positives s1 + st_true_positives s2 ∧
    st_false_positives s = st_false_positives s1 + st_false_positives s2 ∧
    st_false_negatives s = st_false_negatives s1 + st_false_negatives s2 ∧
    st_incorrect_sentences_ids s =
      st_incorrect_sentences_ids s1 ++
      ((λ i, length pred1 + i)%nat <$> st_incorrect_sentences_ids s2) ∧
    st_precision_scores s = st_precision_scores s1 ++ st_precision_scores s2 ∧
    st_recall_scores s = st_recall_scores s1 ++ st_recall_scores s2 ∧
    st_f_scores s = st_f_scores s1 ++ st_f_scores s2.
Proof.
  intros Hlen1 Hlen2. eexists _, _, _.
  split; [apply dataset_loop_ok, Hlen1 |].
  split; [apply dataset_loop_ok, Hlen2 |].
  split; [apply dataset_loop_ok; rewrite !length_app; lia |].
  rewrite (dataset_counts_app _ _ _ _ Hlen1).
  cbn [state_after st_true_positives st_false_positives st_false_negatives
       st_incorrect_sentences_ids st_precision_scores st_recall_scores st_f_scores].
  rewrite !fmap_app, !sumZ_app, incorrect_from_app.
  rewrite (incorrect_from_shift (0 + _)), Nat.add_0_l,
    (dataset_counts_length _ _ Hlen1).
  repeat split; reflexivity.
Qed.

(** X15. On lists of equal length no per-sentence precision, recall or
    f-score is negative: each is [0.0], a positive number or infinity,
    or not a number. *)
Theorem scores_never_negative pred_tokens true_tokens :
  length pred_tokens = length true_tokens →
  ∃ s,
    dataset_loop pred_tokens true_tokens = Ok s ∧
    Forall F64Class.nan_or_nonneg (st_precision_scores s) ∧
    Forall F64Class.nan_or_nonneg (st_recall_scores s) ∧
    Forall F64Class.nan_or_nonneg (st_f_scores s).
Proof.
  intros Hlen. eexists. split; [apply dataset_loop_ok, Hlen |].
  pose proof (dataset_counts_ok pred_tokens true_tokens) as Hok.
  cbn [state_after st_precision_scores st_recall_scores st_f_scores].
  repeat split; apply Forall_fmap; (eapply Forall_impl; [exact Hok |]); intros c Hc.
  - apply ScoreFacts.precision_i_sign, Hc.
  - apply ScoreFacts.recall_i_sign, Hc.
  - apply F64Sign.f_i_sign, Hc.
Qed.

End DatasetExtras.

(** ** The further properties at the sample dataset *)

Lemma dataset_totals_sample :
  length sample_pred = length sample_true ∧
  ∃ p r f m,
    evaluate_dataset Stats.mean Stats.std sample_pred sample_true true =
      Ok (ScoresAndMetrics p r f m) ∧
    true_positives m + false_positives m = total_tokens sample_pred ∧
    true_positives m + false_negatives m = total_tokens sample_true ∧
    0 ≤ true_positives m ∧ 0 ≤ false_positives m ∧ 0 ≤ false_negatives m.
Proof.
  split; [reflexivity |].
  apply (dataset_totals Stats.mean Stats.std sample_pred sample_true).
  reflexivity.
Defined.

Lemma incorrect_iff_differ_sample :
  length sample_pred = length sample_true ∧
  ∃ p r f m,
    evaluate_dataset Stats.mean Stats.std sample_pred sample_true true =
      Ok (ScoresAndMetrics p r f m) ∧
    ∀ i, i ∈ incorrect_sentences_ids m ↔
         ∃ ps ts, sample_pred !! i = Some ps ∧ sample_true !! i = Some ts ∧ ps ≠ ts.
Proof.
  split; [reflexivity |].
  apply (incorrect_iff_differ Stats.mean Stats.std sample_pred sample_true).
  reflexivity.
Defined.

Lemma all_correct_iff_equal_sample :
  length sample_pred = length sample_true ∧
  ∃ p r f m,
    evaluate_dataset Stats.mean Stats.std sample_pred sample_true true =
      Ok (ScoresAndMetrics p r f m) ∧
    (incorrect_sentences_ids m = [] ↔ sample_pred = sample_true) ∧
    (incorrect_sentences_ids m = [] ↔ false_positives m = 0 ∧ false_negatives m = 0).
Proof.
  split; [reflexivity |].
  apply (all_correct_iff_equal Stats.mean Stats.std sample_pred sample_true).
  reflexivity.
Defined.

Lemma dataset_loop_concat_sample :
  length sample_pred = length sample_true ∧
  length [["a"]%string] = length [["b"]%string] ∧
  ∃ s1 s2 s,
    dataset_loop sample_pred sample_true = Ok s1 ∧
    dataset_loop [["a"]%string] [["b"]%string] = Ok s2 ∧
    dataset_loop (sample_pred ++ [["a"]%string]) (sample_true ++ [["b"]%string]) = Ok s ∧
    st_true_positives s = st_true_positives s1 + st_true_positives s2 ∧
    st_false_positives s = st_false_positives s1 + st_false_positives s2 ∧
    st_false_negatives s = st_false_negatives s1 + st_false_negatives s2 ∧
    st_incorrect_sentences_ids s =
      st_incorrect_sentences_ids s1 ++
      ((λ i, length sample_pred + i)%nat <$> st_incorrect_sentences_ids s2) ∧
    st_precision_scores s = st_precision_scores s1 ++ st_precision_scores s2 ∧
    st_recall_scores s = st_recall_scores s1 ++ st_recall_scores s2 ∧
    st_f_scores s = st_f_scores s1 ++ st_f_scores s2.
Proof.
  split; [reflexivity |]. split; [reflexivity |].
  apply (dataset_loop_concat sample_pred sample_true [["a"]%string] [["b"]%string]);
    reflexivity.
Defined.

Lemma scores_never_negative_sample :
  length sample_pred = length sample_true ∧
  ∃ s,
    dataset_loop sample_pred sample_true = Ok s ∧
    Forall F64Class.nan_or_nonneg (st_precision_scores s) ∧
    Forall F64Class.nan_or_nonneg (st_recall_scores s) ∧
    Forall F64Class.nan_or_nonneg (st_f_scores s).
Proof.
  split; [reflexivity |].
  apply (scores_never_negative sample_pred sample_true).
  reflexivity.
Defined.
